(** * Warbler models: a shallow embedding of [models.py]

    The module declares five tables ([users], [messages], [comments],
    [likes], [follows]) through SQLAlchemy, and a handful of helpers on the
    mapped classes: the follow predicates, [signup] / [authenticate], the
    like predicate and the two [serialize] methods.

    Conventions of the embedding.
    - A table is the list of its rows, in insertion order.
    - Integer columns are [Z]; [db.Text] / [db.String] columns are [string],
      wrapped in [option] where the column is nullable; a [DateTime] is the
      number of microseconds since the epoch, as a [Z].
    - Python's [user == other_user] on mapped objects is object identity;
      the session's identity map keeps one object per primary key, so it is
      modelled by equality of the primary keys.
    - A Python [dict] with string keys is a [gmap string PyValue].
    - Exceptions are explicit: [option] for the Python-level ones
      ([ValueError], [AttributeError]), [Result] for the storage engine's;
      the outcome of [authenticate] has a case of its own for the
      [ValueError] that passes through it. *)

From Stdlib Require Import ZArith Lia Ascii.
From stdpp Require Import prelude strings pretty gmap.

Local Open Scope Z_scope.

(** ** Rows *)

Definition datetime := Z.

(** [class FollowersFollowee], table [follows]: both columns are part of
    the primary key and reference [users.id]. *)
Record FollowersFollowee := {
  followee_id : Z;
  follower_id : Z;
}.

(** [class Like], table [likes]. *)
Record Like := {
  Like_user_id : Z;
  Like_message_id : Z;
}.

(** [class User], table [users]. *)
Record User := {
  User_id : Z;
  User_email : string;
  User_username : string;
  User_image_url : option string;
  User_header_image_url : option string;
  User_bio : option string;
  User_location : option string;
  User_password : string;
}.

(** [class Message], table [messages]. *)
Record Message := {
  Message_id : Z;
  Message_text : string;
  Message_timestamp : datetime;
  Message_user_id : Z;
}.

(** [class Comment], table [comments]. *)
Record Comment := {
  Comment_id : Z;
  Comment_text : string;
  Comment_timestamp : datetime;
  Comment_user_id : Z;
  Comment_message_id : Z;
}.

#[global] Instance FollowersFollowee_eq_dec : EqDecision FollowersFollowee.
Proof. solve_decision. Defined.
#[global] Instance Like_eq_dec : EqDecision Like.
Proof. solve_decision. Defined.
#[global] Instance User_eq_dec : EqDecision User.
Proof. solve_decision. Defined.
#[global] Instance Message_eq_dec : EqDecision Message.
Proof. solve_decision. Defined.
#[global] Instance Comment_eq_dec : EqDecision Comment.
Proof. solve_decision. Defined.

(** The store: one list of rows per table. *)
Record DB := {
  users : list User;
  messages : list Message;
  comments : list Comment;
  likes : list Like;
  follows : list FollowersFollowee;
}.

Definition empty_db : DB :=
  {| users := []; messages := []; comments := []; likes := []; follows := [] |}.

(** Composite primary keys, in the order the columns are declared. *)
Definition FollowersFollowee_pk (r : FollowersFollowee) : Z * Z :=
  (followee_id r, follower_id r).

Definition Like_pk (r : Like) : Z * Z :=
  (Like_user_id r, Like_message_id r).

(** ** Relationships *)

(** A many-to-many [db.relationship("User", secondary="follows", ...)]:
    [primaryjoin] ties a column of [follows] to the parent's [id],
    [secondaryjoin] ties a column of [follows] to the child's [id].  The
    loaded collection has one entry per joined pair (row, child). *)
Definition secondary_load (primaryjoin secondaryjoin : FollowersFollowee → Z)
    (db : DB) (self : User) : list User :=
  flat_map
    (λ row,
       if decide (primaryjoin row = User_id self)
       then filter (λ child, secondaryjoin row = User_id child) (users db)
       else [])
    (follows db).

(** [followers]: [primaryjoin=(FollowersFollowee.follower_id == id)],
    [secondaryjoin=(FollowersFollowee.followee_id == id)]. *)
Definition User_followers : DB → User → list User :=
  secondary_load follower_id followee_id.

(** [backref="following"]: the same association read from the other side,
    that is with the two joins exchanged. *)
Definition User_following : DB → User → list User :=
  secondary_load followee_id follower_id.

(** [Message.likes = db.relationship('Like', backref='message')]: the rows
    of [likes] whose foreign key [message_id] is this message. *)
Definition Message_likes (db : DB) (self : Message) : list Like :=
  filter (λ like, Like_message_id like = Message_id self) (likes db).

(** The row of [users] with the given id, [None] if there is none. *)
Definition user_of (db : DB) (user_id : Z) : option User :=
  head (filter (λ u, User_id u = user_id) (users db)).

(** The many-to-one backref [user] of [User.messages] / [User.comments].
    On a row of the store it is loaded through the foreign key; on an
    object that is not a row of the store (built but never committed)
    nothing is loaded and the attribute is [None], whatever its
    [user_id]. *)
Definition Message_user (db : DB) (self : Message) : option User :=
  if decide (self ∈ messages db) then user_of db (Message_user_id self)
  else None.

Definition Comment_user (db : DB) (self : Comment) : option User :=
  if decide (self ∈ comments db) then user_of db (Comment_user_id self)
  else None.

(** ** Follow and like predicates *)

(** The body of [is_followed_by], over the loaded [self.followers]. *)
Definition is_followed_by (followers : list User) (other_user : User) : bool :=
  let found_user_list :=
    filter (λ user, User_id user = User_id other_user) followers in
  bool_decide (length found_user_list = 1%nat).

(** The body of [is_following], over the loaded [self.following]. *)
Definition is_following (following : list User) (other_user : User) : bool :=
  let found_user_list :=
    filter (λ user, User_id user = User_id other_user) following in
  bool_decide (length found_user_list = 1%nat).

Definition User_is_followed_by (db : DB) (self other_user : User) : bool :=
  is_followed_by (User_followers db self) other_user.

Definition User_is_following (db : DB) (self other_user : User) : bool :=
  is_following (User_following db self) other_user.

Definition Message_is_liked_by (db : DB) (self : Message) (user_id : Z) : bool :=
  let user_like :=
    filter (λ like, Like_user_id like = user_id) (Message_likes db self) in
  bool_decide (0 < length user_like)%nat.

(** ** Column defaults and module load *)

(** SQLAlchemy's [default=] is either a scalar, stored in the column object
    when the class body runs and handed out unchanged at every INSERT, or a
    callable, invoked by the engine at each INSERT.  The only state a
    callable of this module could read is the clock. *)
Inductive ColumnDefault (A : Type) :=
  | Scalar (v : A)
  | Callable (f : datetime → A).
Arguments Scalar {A} v.
Arguments Callable {A} f.

(** The value stored for a column at an INSERT executed when the clock
    reads [now]: the explicit value if one was given, the default if not. *)
Definition apply_default {A} (d : ColumnDefault A) (now : datetime)
    (explicit : option A) : A :=
  match explicit with
  | Some v => v
  | None => match d with Scalar v => v | Callable f => f now end
  end.

(** [datetime.utcnow()] when the clock reads [now]. *)
Definition utcnow (now : datetime) : datetime := now.

(** What the module holds once it is imported. *)
Record Models := {
  User_image_url_default : ColumnDefault string;
  User_header_image_url_default : ColumnDefault string;
  Message_timestamp_default : ColumnDefault datetime;
  Comment_timestamp_default : ColumnDefault datetime;
}.

(** Importing the module runs the class bodies top to bottom.  The body of
    [Message] reaches [default=datetime.utcnow()] when the clock reads
    [t_message], the body of [Comment] reaches its own when the clock reads
    [t_comment]: two calls, each made once, each result stored as a
    scalar. *)
Definition load_models (t_message t_comment : datetime) : Models :=
  {| User_image_url_default := Scalar "/static/images/default-pic.png";
     User_header_image_url_default := Scalar "/static/images/warbler-hero.jpg";
     Message_timestamp_default := Scalar (utcnow t_message);
     Comment_timestamp_default := Scalar (utcnow t_comment) |}.

(** ** The storage engine *)

Inductive DBError :=
  | UniqueViolation (constraint : string)
  | ForeignKeyViolation (constraint : string)
  | StringDataRightTruncation (column : string).

Inductive Result (A : Type) :=
  | Ok (a : A)
  | IntegrityError (e : DBError).
Arguments Ok {A} a.
Arguments IntegrityError {A} e.

#[global] Instance DBError_eq_dec : EqDecision DBError.
Proof. solve_decision. Defined.

(** Transient objects: the keyword arguments given to the constructor.  A
    column left out is [None] and takes its default at the INSERT. *)
Record UserInit := {
  init_username : string;
  init_email : string;
  init_password : string;
  init_image_url : option string;
}.

Record MessageInit := {
  Message_init_text : string;
  Message_init_timestamp : option datetime;
  Message_init_user_id : Z;
}.

Record CommentInit := {
  Comment_init_text : string;
  Comment_init_timestamp : option datetime;
  Comment_init_user_id : Z;
  Comment_init_message_id : Z;
}.

(** The next value of an integer primary key: above every id in use. *)
Definition fresh_id (ids : list Z) : Z := 1 + foldr Z.max 0 ids.

Definition set_users (db : DB) (v : list User) : DB :=
  {| users := v; messages := messages db; comments := comments db;
     likes := likes db; follows := follows db |}.
Definition set_messages (db : DB) (v : list Message) : DB :=
  {| users := users db; messages := v; comments := comments db;
     likes := likes db; follows := follows db |}.
Definition set_comments (db : DB) (v : list Comment) : DB :=
  {| users := users db; messages := messages db; comments := v;
     likes := likes db; follows := follows db |}.
Definition set_likes (db : DB) (v : list Like) : DB :=
  {| users := users db; messages := messages db; comments := comments db;
     likes := v; follows := follows db |}.
Definition set_follows (db : DB) (v : list FollowersFollowee) : DB :=
  {| users := users db; messages := messages db; comments := comments db;
     likes := likes db; follows := v |}.

Definition user_ids (db : DB) : list Z := User_id <$> users db.
Definition message_ids (db : DB) : list Z := Message_id <$> messages db.

(** INSERT INTO follows: primary key (followee_id, follower_id), both
    columns foreign keys to [users.id]. *)
Definition insert_follow (db : DB) (r : FollowersFollowee) : Result DB :=
  if decide (FollowersFollowee_pk r ∈ FollowersFollowee_pk <$> follows db)
  then IntegrityError (UniqueViolation "follows_pkey")
  else if decide (followee_id r ∈ user_ids db) then
    if decide (follower_id r ∈ user_ids db)
    then Ok (set_follows db (follows db ++ [r]))
    else IntegrityError (ForeignKeyViolation "follows_follower_id_fkey")
  else IntegrityError (ForeignKeyViolation "follows_followee_id_fkey").

(** INSERT INTO likes: primary key (user_id, message_id), foreign keys to
    [users.id] and [messages.id]. *)
Definition insert_like (db : DB) (r : Like) : Result DB :=
  if decide (Like_pk r ∈ Like_pk <$> likes db)
  then IntegrityError (UniqueViolation "likes_pkey")
  else if decide (Like_user_id r ∈ user_ids db) then
    if decide (Like_message_id r ∈ message_ids db)
    then Ok (set_likes db (likes db ++ [r]))
    else IntegrityError (ForeignKeyViolation "likes_message_id_fkey")
  else IntegrityError (ForeignKeyViolation "likes_user_id_fkey").

(** INSERT INTO users: [email] and [username] unique, [id] generated, the
    two image columns take their defaults when left out. *)
Definition insert_user (mdl : Models) (now : datetime) (db : DB)
    (u : UserInit) : Result DB :=
  if decide (init_email u ∈ User_email <$> users db)
  then IntegrityError (UniqueViolation "users_email_key")
  else if decide (init_username u ∈ User_username <$> users db)
  then IntegrityError (UniqueViolation "users_username_key")
  else
    Ok (set_users db (users db ++ [
      {| User_id := fresh_id (user_ids db);
         User_email := init_email u;
         User_username := init_username u;
         User_image_url :=
           Some (apply_default (User_image_url_default mdl) now (init_image_url u));
         User_header_image_url :=
           Some (apply_default (User_header_image_url_default mdl) now None);
         User_bio := None;
         User_location := None;
         User_password := init_password u |} ])).

(** INSERT INTO messages: [text] is a [String(140)], [user_id] a foreign
    key, [timestamp] takes its default when left out. *)
Definition insert_message (mdl : Models) (now : datetime) (db : DB)
    (m : MessageInit) : Result DB :=
  if decide (140 < String.length (Message_init_text m))%nat
  then IntegrityError (StringDataRightTruncation "text")
  else if decide (Message_init_user_id m ∈ user_ids db) then
    Ok (set_messages db (messages db ++ [
      {| Message_id := fresh_id (message_ids db);
         Message_text := Message_init_text m;
         Message_timestamp :=
           apply_default (Message_timestamp_default mdl) now
                         (Message_init_timestamp m);
         Message_user_id := Message_init_user_id m |} ]))
  else IntegrityError (ForeignKeyViolation "messages_user_id_fkey").

(** INSERT INTO comments. *)
Definition insert_comment (mdl : Models) (now : datetime) (db : DB)
    (c : CommentInit) : Result DB :=
  if decide (140 < String.length (Comment_init_text c))%nat
  then IntegrityError (StringDataRightTruncation "text")
  else if decide (Comment_init_user_id c ∈ user_ids db) then
    if decide (Comment_init_message_id c ∈ message_ids db) then
      Ok (set_comments db (comments db ++ [
        {| Comment_id := fresh_id (Comment_id <$> comments db);
           Comment_text := Comment_init_text c;
           Comment_timestamp :=
             apply_default (Comment_timestamp_default mdl) now
                           (Comment_init_timestamp c);
           Comment_user_id := Comment_init_user_id c;
           Comment_message_id := Comment_init_message_id c |} ]))
    else IntegrityError (ForeignKeyViolation "comments_message_id_fkey")
  else IntegrityError (ForeignKeyViolation "comments_user_id_fkey").

(** ** The session: [db.session.add] and [db.session.commit] *)

Inductive Pending :=
  | NewUser (u : UserInit)
  | NewMessage (m : MessageInit)
  | NewComment (c : CommentInit)
  | NewLike (l : Like)
  | NewFollow (f : FollowersFollowee).

Record Session := {
  store : DB;
  pending : list Pending;
}.

Definition session_of (db : DB) : Session := {| store := db; pending := [] |}.

Definition session_add (s : Session) (o : Pending) : Session :=
  {| store := store s; pending := pending s ++ [o] |}.

Definition flush_one (mdl : Models) (now : datetime) (db : DB)
    (o : Pending) : Result DB :=
  match o with
  | NewUser u => insert_user mdl now db u
  | NewMessage m => insert_message mdl now db m
  | NewComment c => insert_comment mdl now db c
  | NewLike l => insert_like db l
  | NewFollow f => insert_follow db f
  end.

(** The INSERTs of a list of objects, one after the other, stopping at the
    first that is refused; [session_commit] hands it the staged objects in
    unit-of-work order. *)
Fixpoint flush (mdl : Models) (now : datetime) (db : DB)
    (os : list Pending) : Result DB :=
  match os with
  | [] => Ok db
  | o :: os' =>
      match flush_one mdl now db o with
      | Ok db' => flush mdl now db' os'
      | IntegrityError e => IntegrityError e
      end
  end.

(** The unit of work sorts the staged objects by table dependency before
    it emits the INSERTs: a table comes after the tables its foreign keys
    reference, and objects of one table keep the order they were added
    in. *)
Definition table_rank (o : Pending) : nat :=
  match o with
  | NewUser _ => 0
  | NewMessage _ => 1
  | NewComment _ => 2
  | NewLike _ => 3
  | NewFollow _ => 4
  end.

Definition unit_of_work (os : list Pending) : list Pending :=
  flat_map (λ rank, filter (λ o, table_rank o = rank) os) (seq 0 5).

(** [commit] flushes the staged objects in one transaction.  When an INSERT
    is refused the transaction is rolled back: the store is the one the
    transaction started from and the error is raised to the caller. *)
Definition session_commit (mdl : Models) (now : datetime) (s : Session)
    : Session * option DBError :=
  match flush mdl now (store s) (unit_of_work (pending s)) with
  | Ok db' => ({| store := db'; pending := [] |}, None)
  | IntegrityError e => ({| store := store s; pending := [] |}, Some e)
  end.

(** ** Password hashing *)

(** The interface of the [bcrypt] object of [flask_bcrypt].  The salt that
    [generate_password_hash] draws is an explicit argument.  Both calls can
    raise [ValueError] (here [None]): [generate_password_hash] on a
    password it refuses (an empty one, for instance),
    [check_password_hash] on a password or a stored hash it refuses. *)
Class Bcrypt := {
  generate_password_hash : string → string → option string;
  check_password_hash : string → string → option bool;
}.

(** What the module relies on: a hash that was made verifies against the
    password it was made from, and is never that password itself. *)
Class BcryptLaws (B : Bcrypt) := {
  check_generated salt password h :
    generate_password_hash salt password = Some h →
    check_password_hash h password = Some true;
  hash_not_plaintext salt password h :
    generate_password_hash salt password = Some h → h ≠ password;
}.

(** ** [User.signup] and [User.authenticate] *)

(** [signup] hashes the password, builds the transient user and stages it
    with [db.session.add]; it returns the user and does not commit. *)
Definition User_signup `{Bcrypt} (salt : string) (s : Session)
    (username email password : string) (image_url : option string)
    : option (Session * UserInit) :=
  hashed_pwd ← generate_password_hash salt password;
  let user :=
    {| init_username := username;
       init_email := email;
       init_password := hashed_pwd;
       init_image_url := image_url |} in
  Some (session_add s (NewUser user), user).

(** How a call of [authenticate] ends: it returns a user object, it
    returns Python's [False], or the [ValueError] raised inside
    [bcrypt.check_password_hash] reaches the caller (nothing in
    [authenticate] catches it). *)
Inductive AuthResult :=
  | AuthUser (user : User)
  | AuthFalse
  | AuthValueError.

#[global] Instance AuthResult_eq_dec : EqDecision AuthResult.
Proof. solve_decision. Defined.

(** [cls.query.filter_by(username=username)]. *)
Definition query_filter_by_username (db : DB) (username : string) : list User :=
  filter (λ u, User_username u = username) (users db).

Definition User_authenticate `{Bcrypt} (db : DB) (username password : string)
    : AuthResult :=
  let user := head (query_filter_by_username db username) in
  match user with
  | Some user =>
      match check_password_hash (User_password user) password with
      | Some is_auth => if is_auth then AuthUser user else AuthFalse
      | None => AuthValueError
      end
  | None => AuthFalse
  end.

(** ** [serialize] *)

Inductive PyValue :=
  | PyInt (z : Z)
  | PyStr (s : string)
  | PyDateTime (t : datetime)
  | PyNone.

Definition py_opt_str (o : option string) : PyValue :=
  match o with Some s => PyStr s | None => PyNone end.

(** [self.user.username] raises [AttributeError] when [self.user] is
    [None]; the result is then [None]. *)
Definition Message_serialize (db : DB) (self : Message)
    : option (gmap string PyValue) :=
  user ← Message_user db self;
  Some (list_to_map [
    ("id", PyInt (Message_id self));
    ("text", PyStr (Message_text self));
    ("user_id", PyInt (Message_user_id self));
    ("timestamp", PyDateTime (Message_timestamp self));
    ("username", PyStr (User_username user)) ]).

Definition Comment_serialize (db : DB) (self : Comment)
    : option (gmap string PyValue) :=
  user ← Comment_user db self;
  Some (list_to_map [
    ("id", PyInt (Comment_id self));
    ("text", PyStr (Comment_text self));
    ("user_id", PyInt (Comment_user_id self));
    ("timestamp", PyDateTime (Comment_timestamp self));
    ("username", PyStr (User_username user));
    ("msg_id", PyInt (Comment_message_id self));
    ("image_url", py_opt_str (User_image_url user)) ]).

(** ** Creating one row: [db.session.add(o)] then [db.session.commit()] *)

Definition create (mdl : Models) (now : datetime) (db : DB) (o : Pending)
    : Session * option DBError :=
  session_commit mdl now (session_add (session_of db) o).

(** ** Specification vocabulary *)

(** The rows of [follows] with the given [follower_id] and [followee_id]. *)
Definition follow_rows (db : DB) (follower followee : Z)
    : list FollowersFollowee :=
  filter (λ r, follower_id r = follower ∧ followee_id r = followee) (follows db).

(** How many rows of [users] carry the id [x]. *)
Definition matches (db : DB) (x : Z) : nat :=
  length (filter (λ u, User_id u = x) (users db)).

(** What the declared constraints guarantee of every committed state:
    primary keys and [unique=True] columns hold no value twice, and every
    foreign key points at an existing row. *)
Record DB_wf (db : DB) : Prop := {
  wf_user_ids : NoDup (user_ids db);
  wf_emails : NoDup (User_email <$> users db);
  wf_usernames : NoDup (User_username <$> users db);
  wf_message_ids : NoDup (message_ids db);
  wf_comment_ids : NoDup (Comment_id <$> comments db);
  wf_likes_pk : NoDup (Like_pk <$> likes db);
  wf_follows_pk : NoDup (FollowersFollowee_pk <$> follows db);
  wf_messages_fk m : m ∈ messages db → Message_user_id m ∈ user_ids db;
  wf_comments_fk c :
    c ∈ comments db →
    Comment_user_id c ∈ user_ids db ∧ Comment_message_id c ∈ message_ids db;
  wf_likes_fk l :
    l ∈ likes db → Like_user_id l ∈ user_ids db ∧ Like_message_id l ∈ message_ids db;
  wf_follows_fk r :
    r ∈ follows db → followee_id r ∈ user_ids db ∧ follower_id r ∈ user_ids db;
}.

(** ** Fixtures *)

Definition sample_user (id : Z) (name : string) : User :=
  {| User_id := id;
     User_email := name +:+ "@x.com";
     User_username := name;
     User_image_url := Some "/static/images/default-pic.png";
     User_header_image_url := Some "/static/images/warbler-hero.jpg";
     User_bio := None;
     User_location := None;
     User_password := "$2b$12$" +:+ name |}.

Definition alice : User := sample_user 1 "alice".
Definition bob : User := sample_user 2 "bob".

(** A store with two users and nothing else. *)
Definition two_users : DB := set_users empty_db [alice; bob].

(** The module as imported when the clock read 100, then 101. *)
Definition mdl0 : Models := load_models 100 101.

(** The store after alice's first follow row. *)
Definition one_follow : DB :=
  set_follows two_users [{| followee_id := 2; follower_id := 1 |}].

(** A [follows] table that breaks its primary key: one pair, twice. *)
Definition twice_followed : DB :=
  set_follows two_users [ {| followee_id := 2; follower_id := 1 |};
                          {| followee_id := 2; follower_id := 1 |} ].

Definition hello : MessageInit :=
  {| Message_init_text := "hello";
     Message_init_timestamp := None;
     Message_init_user_id := 1 |}.

Definition reply : CommentInit :=
  {| Comment_init_text := "hi back";
     Comment_init_timestamp := None;
     Comment_init_user_id := 2;
     Comment_init_message_id := 1 |}.

Definition hello_row : Message :=
  {| Message_id := 1; Message_text := "hello";
     Message_timestamp := 100; Message_user_id := 1 |}.

(** [s] without its prefix [p], when it has that prefix. *)
Fixpoint strip_prefix (p s : string) : option string :=
  match p with
  | EmptyString => Some s
  | String a p' =>
      match s with
      | String b s' => if Ascii.eqb a b then strip_prefix p' s' else None
      | EmptyString => None
      end
  end.

(** A stand-in for [bcrypt], to show that [BcryptLaws] can be met: its
    hash is the password behind a version prefix.  Like the library it
    refuses to hash an empty password, refuses a password longer than 72
    bytes, and refuses to check against a string that is not one of its
    hashes. *)
Definition toy_bcrypt : Bcrypt :=
  {| generate_password_hash := λ _ password,
       if decide (password = EmptyString) then None
       else if decide (72 < String.length password)%nat then None
       else Some ("$2b$12$" +:+ password);
     check_password_hash := λ pw_hash password,
       if decide (72 < String.length password)%nat then None
       else match strip_prefix "$2b$12$" pw_hash with
            | Some digest => Some (bool_decide (digest = password))
            | None => None
            end |}.


(** ** The one-to-many relationships and their backrefs *)

(** [User.messages = db.relationship('Message', backref='user', ...)]. *)
Definition User_messages (db : DB) (self : User) : list Message :=
  filter (λ m, Message_user_id m = User_id self) (messages db).

(** [User.likes = db.relationship('Like', backref='user', ...)]. *)
Definition User_likes (db : DB) (self : User) : list Like :=
  filter (λ l, Like_user_id l = User_id self) (likes db).

(** [User.comments = db.relationship('Comment', backref='user', ...)]. *)
Definition User_comments (db : DB) (self : User) : list Comment :=
  filter (λ c, Comment_user_id c = User_id self) (comments db).

(** [Message.comments = db.relationship('Comment', backref='message', ...)]. *)
Definition Message_comments (db : DB) (self : Message) : list Comment :=
  filter (λ c, Comment_message_id c = Message_id self) (comments db).

(** The row of [messages] with the given id; the backref [message] of
    [Message.likes] / [Message.comments] loads it for a row of the store. *)
Definition message_of (db : DB) (message_id : Z) : option Message :=
  head (filter (λ m, Message_id m = message_id) (messages db)).

Definition Comment_message (db : DB) (self : Comment) : option Message :=
  if decide (self ∈ comments db) then message_of db (Comment_message_id self)
  else None.

Definition Like_message (db : DB) (self : Like) : option Message :=
  if decide (self ∈ likes db) then message_of db (Like_message_id self)
  else None.

Definition Like_user (db : DB) (self : Like) : option User :=
  if decide (self ∈ likes db) then user_of db (Like_user_id self)
  else None.

(** ** Deleting: [db.session.delete(obj)] then [db.session.commit()] *)

(** DELETE of the given rows of [likes], by primary key. *)
Definition delete_likes (db : DB) (ls : list Like) : DB :=
  set_likes db (filter (λ l, Like_pk l ∉ Like_pk <$> ls) (likes db)).

(** DELETE of the given rows of [comments], by primary key. *)
Definition delete_comments (db : DB) (cs : list Comment) : DB :=
  set_comments db (filter (λ c, Comment_id c ∉ Comment_id <$> cs) (comments db)).

(** Deleting a message: [cascade="all, delete"] on [Message.likes] and on
    [Message.comments] deletes the rows of both collections, then the row
    of [messages] goes. *)
Definition delete_message (db : DB) (self : Message) : DB :=
  let db1 := delete_likes db (Message_likes db self) in
  let db2 := delete_comments db1 (Message_comments db self) in
  set_messages db2
    (filter (λ m, Message_id m ≠ Message_id self) (messages db2)).

(** Deleting a user: [cascade="all, delete"] on [User.messages] deletes each
    of the user's messages (with what hangs on them), on [User.likes] and
    [User.comments] the user's own likes and comments; the rows of the
    [secondary] table [follows] that mention the user go with it (both
    columns are declared [ondelete="cascade"]); then the row of [users]
    goes. *)
Definition delete_user (db : DB) (self : User) : DB :=
  let db1 := foldr (λ m acc, delete_message acc m) db (User_messages db self) in
  let db2 := delete_likes db1 (User_likes db self) in
  let db3 := delete_comments db2 (User_comments db self) in
  let db4 :=
    set_follows db3
      (filter (λ r, follower_id r ≠ User_id self ∧ followee_id r ≠ User_id self)
              (follows db3)) in
  set_users db4 (filter (λ u, User_id u ≠ User_id self) (users db4)).

(** ** [__repr__] *)

(** [str] of a Python [int] is its decimal numeral, as [pretty] prints a
    [Z]; the line feed of the f-strings is character 10. *)
Definition LF : string := String (ascii_of_nat 10) EmptyString.

Definition User_repr (self : User) : string :=
  "<User #" +:+ pretty (User_id self) +:+ ": " +:+ User_username self
  +:+ ", " +:+ User_email self +:+ ">".

Definition Message_repr (self : Message) : string :=
  "<id: " +:+ pretty (Message_id self) +:+ LF
  +:+ "text: " +:+ Message_text self +:+ LF
  +:+ "user_id: " +:+ pretty (Message_user_id self) +:+ ">".

Definition Comment_repr (self : Comment) : string :=
  "<id: " +:+ pretty (Comment_id self) +:+ LF
  +:+ "text: " +:+ Comment_text self +:+ LF
  +:+ "user_id: " +:+ pretty (Comment_user_id self) +:+ LF
  +:+ "message_id: " +:+ pretty (Comment_message_id self) +:+ ">".

(** Whether a character occurs in a string. *)
Fixpoint occurs (c : ascii) (s : string) : Prop :=
  match s with
  | EmptyString => False
  | String a s' => a = c ∨ occurs c s'
  end.

(** The characters of a decimal numeral. *)
Definition numeral_char (c : ascii) : Prop :=
  c ∈ ["0"; "1"; "2"; "3"; "4"; "5"; "6"; "7"; "8"; "9"; "-"]%char.

(** ** More fixtures *)

(** A store with two users, a message of each, a comment and two likes. *)
Definition busy : DB :=
  {| users := [alice; bob];
     messages := [ {| Message_id := 1; Message_text := "hello";
                      Message_timestamp := 100; Message_user_id := 1 |};
                   {| Message_id := 2; Message_text := "bye";
                      Message_timestamp := 100; Message_user_id := 2 |} ];
     comments := [ {| Comment_id := 1; Comment_text := "hi back";
                      Comment_timestamp := 101; Comment_user_id := 2;
                      Comment_message_id := 1 |} ];
     likes := [ {| Like_user_id := 2; Like_message_id := 1 |};
                {| Like_user_id := 1; Like_message_id := 2 |} ];
     follows := [ {| followee_id := 2; follower_id := 1 |} ] |}.

(** * Properties *)

(** ** Counting in the follow graph *)

Lemma filter_id_of_join (us : list User) (c x : Z) :
  filter (λ u, User_id u = x) (filter (λ child, c = User_id child) us)
  = if decide (c = x) then filter (λ u, User_id u = x) us else [].
Proof.
  induction us as [|u us IH]; [by case_decide|].
  rewrite (filter_cons (λ child, c = User_id child)).
  destruct (decide (c = User_id u)) as [Hc|Hc].
  - rewrite !filter_cons, IH.
    destruct (decide (c = x)); destruct (decide (User_id u = x)); congruence.
  - rewrite IH, filter_cons.
    destruct (decide (c = x)); [|done].
    destruct (decide (User_id u = x)); congruence.
Qed.

Lemma secondary_load_count (p s : FollowersFollowee → Z) db self x :
  length (filter (λ u, User_id u = x) (secondary_load p s db self))
  = (length (filter (λ r, p r = User_id self ∧ s r = x) (follows db))
     * matches db x)%nat.
Proof.
  unfold secondary_load, matches.
  induction (follows db) as [|r rs IH]; [done|].
  cbn [flat_map]. rewrite filter_app, length_app, IH, filter_cons.
  destruct (decide (p r = User_id self)) as [Hp|Hp].
  - rewrite filter_id_of_join.
    destruct (decide (s r = x)) as [Hs|Hs].
    + rewrite decide_True by done. cbn [length]. lia.
    + rewrite decide_False by tauto. cbn [length]. lia.
  - rewrite decide_False by tauto. cbn [length filter]. rewrite filter_nil. cbn. lia.
Qed.

Lemma followers_count db self other :
  length (filter (λ u, User_id u = User_id other) (User_followers db self))
  = (length (follow_rows db (User_id self) (User_id other))
     * matches db (User_id other))%nat.
Proof. apply secondary_load_count. Qed.

Lemma following_count db self other :
  length (filter (λ u, User_id u = User_id other) (User_following db self))
  = (length (follow_rows db (User_id other) (User_id self))
     * matches db (User_id other))%nat.
Proof.
  unfold User_following. rewrite secondary_load_count. f_equal. f_equal.
  unfold follow_rows. apply list_filter_iff. tauto.
Qed.

Lemma filter_none {A} (P : A → Prop) `{∀ x, Decision (P x)} (l : list A) :
  (∀ x, x ∈ l → ¬ P x) → filter P l = [].
Proof.
  induction l as [|a l IH]; [done|]. intros Hall.
  rewrite filter_cons_False by (apply Hall; left).
  apply IH. intros x Hx. apply Hall. by right.
Qed.

Lemma matches_le_1 db x : NoDup (user_ids db) → (matches db x ≤ 1)%nat.
Proof.
  unfold matches, user_ids. induction (users db) as [|u us IH]; [cbn; lia|].
  rewrite fmap_cons, NoDup_cons. intros [Hu Hnd]. rewrite filter_cons.
  destruct (decide (User_id u = x)) as [<-|Hne]; [|by apply IH].
  cbn [length]. enough (filter (λ v, User_id v = User_id u) us = []) as -> by (cbn; lia).
  apply filter_none. intros v Hv Heq. apply Hu.
  rewrite <- Heq. by apply list_elem_of_fmap_2.
Qed.

Lemma matches_member db u :
  NoDup (user_ids db) → u ∈ users db → matches db (User_id u) = 1%nat.
Proof.
  intros Hnd Hu. pose proof (matches_le_1 db (User_id u) Hnd) as Hle.
  enough (0 < matches db (User_id u))%nat by lia.
  unfold matches.
  assert (u ∈ filter (λ v, User_id v = User_id u) (users db)) as Hin
    by by apply list_elem_of_filter.
  destruct (filter _ _); [by apply elem_of_nil in Hin|cbn; lia].
Qed.

(** ** The invariant of the store *)

Lemma NoDup_snoc_fresh {A} (l : list A) (x : A) :
  NoDup l → x ∉ l → NoDup (l ++ [x]).
Proof.
  intros Hnd Hx. apply NoDup_app. split; [done|]. split; [|apply NoDup_singleton].
  intros y Hy ->%list_elem_of_singleton. done.
Qed.

Lemma foldr_max_ge (ids : list Z) (x : Z) : x ∈ ids → x ≤ foldr Z.max 0 ids.
Proof.
  induction ids as [|y ids IH]; [by intros ?%elem_of_nil|].
  intros [->|Hx]%elem_of_cons; cbn [foldr]; [lia|].
  specialize (IH Hx). lia.
Qed.

Lemma fresh_id_fresh (ids : list Z) : fresh_id ids ∉ ids.
Proof. intros H%foldr_max_ge. unfold fresh_id in H. lia. Qed.

Lemma DB_wf_empty : DB_wf empty_db.
Proof.
  split; cbn; try apply NoDup_nil_2; intros ? []%elem_of_nil.
Qed.

Lemma flush_one_wf mdl now db o db' :
  DB_wf db → flush_one mdl now db o = Ok db' → DB_wf db'.
Proof.
  intros [] Hflush. destruct o as [u|m|c|l|f]; cbn in Hflush.
  - unfold insert_user in Hflush. repeat case_decide; simplify_eq.
    unfold user_ids, message_ids in *.
    split; cbn; unfold user_ids, message_ids; cbn; rewrite ?fmap_app; cbn; try done;
      try (apply NoDup_snoc_fresh; [done|try done; apply fresh_id_fresh]).
    + intros m Hm. apply elem_of_app. left. by apply wf_messages_fk0.
    + intros c Hc. destruct (wf_comments_fk0 c Hc). split; [|done].
      apply elem_of_app. by left.
    + intros l Hl. destruct (wf_likes_fk0 l Hl). split; [|done].
      apply elem_of_app. by left.
    + intros r Hr. destruct (wf_follows_fk0 r Hr).
      split; apply elem_of_app; by left.
  - unfold insert_message in Hflush. repeat case_decide; simplify_eq.
    unfold user_ids, message_ids in *.
    split; cbn; unfold user_ids, message_ids; cbn; rewrite ?fmap_app; cbn; try done;
      try (apply NoDup_snoc_fresh; [done|apply fresh_id_fresh]).
    + intros m' [Hm| ->%list_elem_of_singleton]%elem_of_app; [by apply wf_messages_fk0|done].
    + intros c Hc. destruct (wf_comments_fk0 c Hc). split; [done|].
      apply elem_of_app. by left.
    + intros l Hl. destruct (wf_likes_fk0 l Hl). split; [done|].
      apply elem_of_app. by left.
  - unfold insert_comment in Hflush. repeat case_decide; simplify_eq.
    unfold user_ids, message_ids in *.
    split; cbn; unfold user_ids, message_ids; cbn; rewrite ?fmap_app; cbn; try done;
      try (apply NoDup_snoc_fresh; [done|apply fresh_id_fresh]).
    intros c' [Hc| ->%list_elem_of_singleton]%elem_of_app; [by apply wf_comments_fk0|done].
  - unfold insert_like in Hflush. repeat case_decide; simplify_eq.
    unfold user_ids, message_ids in *.
    split; cbn; unfold user_ids, message_ids; cbn; rewrite ?fmap_app; cbn; try done;
      try (by apply NoDup_snoc_fresh).
    intros l' [Hl| ->%list_elem_of_singleton]%elem_of_app; [by apply wf_likes_fk0|done].
  - unfold insert_follow in Hflush. repeat case_decide; simplify_eq.
    unfold user_ids, message_ids in *.
    split; cbn; unfold user_ids, message_ids; cbn; rewrite ?fmap_app; cbn; try done;
      try (by apply NoDup_snoc_fresh).
    intros r' [Hr| ->%list_elem_of_singleton]%elem_of_app; [by apply wf_follows_fk0|done].
Qed.

Lemma flush_wf mdl now os : ∀ db db',
  DB_wf db → flush mdl now db os = Ok db' → DB_wf db'.
Proof.
  induction os as [|o os IH]; intros db db' Hwf Hflush; cbn in Hflush.
  - by simplify_eq.
  - destruct (flush_one mdl now db o) as [db1|e] eqn:Hone; [|done].
    eapply IH; [|done]. by eapply flush_one_wf.
Qed.

(** Whether it succeeds or is rolled back, [commit] leaves a store that
    satisfies the declared constraints. *)
Lemma session_commit_wf mdl now s :
  DB_wf (store s) → DB_wf (store (session_commit mdl now s).1).
Proof.
  intros Hwf. unfold session_commit.
  destruct (flush mdl now (store s) (unit_of_work (pending s)))
    as [db'|e] eqn:Hflush; cbn; [|done].
  by eapply flush_wf.
Qed.

Lemma unit_of_work_singleton (o : Pending) : unit_of_work [o] = [o].
Proof. by destruct o. Qed.

Lemma create_eq mdl now db o :
  create mdl now db o =
  match flush_one mdl now db o with
  | Ok db' => (session_of db', None)
  | IntegrityError e => (session_of db, Some e)
  end.
Proof.
  unfold create, session_commit, session_add, session_of.
  cbn [store pending app]. rewrite unit_of_work_singleton. cbn [flush].
  by destruct (flush_one mdl now db o).
Qed.

(** ** Membership in the loaded collections *)

Lemma elem_of_secondary_load (p s : FollowersFollowee → Z) db self u :
  u ∈ secondary_load p s db self ↔
  u ∈ users db ∧ ∃ r, r ∈ follows db ∧ p r = User_id self ∧ s r = User_id u.
Proof.
  unfold secondary_load. rewrite list_elem_of_In, in_flat_map. split.
  - intros (r & Hr%list_elem_of_In & Hu%list_elem_of_In).
    destruct (decide (p r = User_id self)); [|by apply elem_of_nil in Hu].
    apply list_elem_of_filter in Hu as [Hs Hu]. eauto.
  - intros (Hu & r & Hr & Hp & Hs). exists r.
    split; [by apply list_elem_of_In|]. apply list_elem_of_In.
    rewrite decide_True by done. by apply list_elem_of_filter.
Qed.

Lemma NoDup_ids_filter (P : User → Prop) `{∀ u, Decision (P u)} (us : list User) :
  NoDup (User_id <$> us) → NoDup (User_id <$> filter P us).
Proof.
  intros Hnd. eapply sublist_NoDup; [exact Hnd|].
  apply fmap_sublist, sublist_filter.
Qed.

(** Under the primary keys of [users] and [follows], no user is loaded
    twice into a [followers] or [following] collection. *)
Lemma secondary_load_NoDup (p s : FollowersFollowee → Z) db self :
  (∀ r r', p r = p r' → s r = s r' →
           FollowersFollowee_pk r = FollowersFollowee_pk r') →
  NoDup (user_ids db) →
  NoDup (FollowersFollowee_pk <$> follows db) →
  NoDup (User_id <$> secondary_load p s db self).
Proof.
  intros Hkey Hus. unfold secondary_load.
  induction (follows db) as [|r rs IH]; [intros _; apply NoDup_nil_2|].
  rewrite fmap_cons, NoDup_cons. intros [Hr Hrs].
  cbn [flat_map]. rewrite fmap_app. apply NoDup_app.
  split; [|split; [|by apply IH]].
  - destruct (decide (p r = User_id self)); [|apply NoDup_nil_2].
    by apply NoDup_ids_filter.
  - intros x Hx Hx'.
    destruct (decide (p r = User_id self)) as [Hp|]; [|by apply elem_of_nil in Hx].
    apply list_elem_of_fmap in Hx as (u & -> & [Hs _]%list_elem_of_filter).
    apply list_elem_of_fmap in Hx' as (v & Hv & Hin).
    apply list_elem_of_In, in_flat_map in Hin as (r' & Hr'%list_elem_of_In & Hv'%list_elem_of_In).
    destruct (decide (p r' = User_id self)) as [Hp'|]; [|by apply elem_of_nil in Hv'].
    apply list_elem_of_filter in Hv' as [Hs' _].
    apply Hr. rewrite (Hkey r r') by congruence. by apply list_elem_of_fmap_2.
Qed.

Lemma followers_NoDup db self :
  DB_wf db → NoDup (User_id <$> User_followers db self).
Proof.
  intros []. apply secondary_load_NoDup; [|done..].
  intros [] []; cbn. congruence.
Qed.

Lemma following_NoDup db self :
  DB_wf db → NoDup (User_id <$> User_following db self).
Proof.
  intros []. apply secondary_load_NoDup; [|done..].
  intros [] []; cbn. congruence.
Qed.

(** Occurrences of an id in a collection without repeated ids. *)
Lemma count_id_NoDup (coll : list User) (x : Z) :
  NoDup (User_id <$> coll) →
  length (filter (λ u, User_id u = x) coll)
  = if decide (x ∈ User_id <$> coll) then 1%nat else 0%nat.
Proof.
  induction coll as [|u coll IH]; [intros _; by rewrite decide_False by apply not_elem_of_nil|].
  rewrite fmap_cons, NoDup_cons. intros [Hu Hnd]. specialize (IH Hnd).
  rewrite filter_cons. destruct (decide (User_id u = x)) as [<-|Hne]; cbn [length]; rewrite IH.
  - rewrite (decide_False (P:=User_id u ∈ User_id <$> coll)) by done.
    by rewrite decide_True by left.
  - destruct (decide (x ∈ User_id <$> coll)) as [Hx|Hx].
    + rewrite decide_True; [done|by right].
    + rewrite decide_False; [done|]. intros [?|?]%elem_of_cons; congruence.
Qed.

Lemma follow_rows_snoc db r follower followee :
  follow_rows (set_follows db (follows db ++ [r])) follower followee
  = follow_rows db follower followee
    ++ (if decide (follower_id r = follower ∧ followee_id r = followee)
        then [r] else []).
Proof.
  unfold follow_rows, set_follows. cbn [follows].
  by rewrite filter_app.
Qed.

Lemma matches_set_follows db v x : matches (set_follows db v) x = matches db x.
Proof. done. Qed.

(** ** The follow predicates *)

Lemma is_followed_by_true (coll : list User) (other : User) :
  is_followed_by coll other = true ↔
  length (filter (λ u, User_id u = User_id other) coll) = 1%nat.
Proof. unfold is_followed_by. apply bool_decide_eq_true. Qed.

Lemma is_following_true (coll : list User) (other : User) :
  is_following coll other = true ↔
  length (filter (λ u, User_id u = User_id other) coll) = 1%nat.
Proof. unfold is_following. apply bool_decide_eq_true. Qed.

Lemma is_followed_by_false (coll : list User) (other : User) :
  is_followed_by coll other = false ↔
  length (filter (λ u, User_id u = User_id other) coll) ≠ 1%nat.
Proof. unfold is_followed_by. apply bool_decide_eq_false. Qed.

Lemma is_following_false (coll : list User) (other : User) :
  is_following coll other = false ↔
  length (filter (λ u, User_id u = User_id other) coll) ≠ 1%nat.
Proof. unfold is_following. apply bool_decide_eq_false. Qed.

Ltac follow_count :=
  rewrite ?following_count, ?followers_count, ?follow_rows_snoc,
    ?matches_set_follows.

Lemma insert_follow_fresh db r :
  follow_rows db (follower_id r) (followee_id r) = [] →
  followee_id r ∈ user_ids db → follower_id r ∈ user_ids db →
  insert_follow db r = Ok (set_follows db (follows db ++ [r])).
Proof.
  intros Hnone Hee Her. unfold insert_follow.
  rewrite decide_False; [by rewrite !decide_True|].
  intros (r' & Hpk & Hr')%list_elem_of_fmap.
  assert (r' ∈ follow_rows db (follower_id r) (followee_id r)) as Hin.
  { apply list_elem_of_filter. inversion Hpk. done. }
  rewrite Hnone in Hin. by apply elem_of_nil in Hin.
Qed.

(** C1.  Two distinct users A and B of the store with no [follows] row
    between them: [A.is_following(B)] and [B.is_followed_by(A)] are false.
    Creating the row with [follower_id = A.id] and [followee_id = B.id]
    succeeds, and afterwards [B.is_followed_by(A)] and [A.is_following(B)]
    are still false: the row is read the other way round, it makes
    [A.is_followed_by(B)] and [B.is_following(A)] true. *)
Theorem follow_row_is_read_reversed mdl now db (A B : User) :
  NoDup (user_ids db) → A ∈ users db → B ∈ users db →
  User_id A ≠ User_id B →
  follow_rows db (User_id A) (User_id B) = [] →
  follow_rows db (User_id B) (User_id A) = [] →
  let row := {| followee_id := User_id B; follower_id := User_id A |} in
  (User_is_following db A B = false ∧ User_is_followed_by db B A = false) ∧
  ∃ db',
    create mdl now db (NewFollow row) = (session_of db', None) ∧
    follows db' = follows db ++ [row] ∧
    User_is_followed_by db' B A = false ∧
    User_is_following db' A B = false ∧
    User_is_followed_by db' A B = true ∧
    User_is_following db' B A = true.
Proof.
  intros Hnd HA HB Hne HAB HBA row. split.
  - unfold User_is_following, User_is_followed_by.
    rewrite is_following_false, is_followed_by_false.
    rewrite following_count, followers_count, HBA. cbn. lia.
  - exists (set_follows db (follows db ++ [row])).
    rewrite create_eq. cbn [flush_one].
    rewrite insert_follow_fresh;
      [|done|by apply (list_elem_of_fmap_2 User_id)..].
    split; [done|]. split; [done|].
    unfold User_is_following, User_is_followed_by. subst row.
    repeat split.
    + apply is_followed_by_false. follow_count.
      rewrite HBA, decide_False by (cbn; tauto). cbn. lia.
    + apply is_following_false. follow_count.
      rewrite HBA, decide_False by (cbn; tauto). cbn. lia.
    + apply is_followed_by_true. follow_count.
      rewrite HAB, decide_True by done. rewrite matches_member by done. done.
    + apply is_following_true. follow_count.
      rewrite HAB, decide_True by done. rewrite matches_member by done. done.
Qed.

Lemma follow_row_is_read_reversed_witness :
  User_is_followed_by one_follow bob alice = false
  ∧ User_is_following one_follow alice bob = false.
Proof.
  destruct (follow_row_is_read_reversed mdl0 200 two_users alice bob)
    as (_ & db' & Hcreate & _ & Hby & Hing & _).
  - compute_done.
  - compute_done.
  - compute_done.
  - compute_done.
  - reflexivity.
  - reflexivity.
  - vm_compute in Hcreate. inversion Hcreate; subst db'. split; assumption.
Defined.

(** C9.  For users A and B of the store, [A.is_following(B)] and
    [B.is_followed_by(A)] return the same value, and B is in A's
    [following] collection exactly when A is in B's [followers]
    collection. *)
Theorem is_following_converse_of_is_followed_by db (A B : User) :
  NoDup (user_ids db) → A ∈ users db → B ∈ users db →
  User_is_following db A B = User_is_followed_by db B A
  ∧ (B ∈ User_following db A ↔ A ∈ User_followers db B).
Proof.
  intros Hnd HA HB. split.
  - unfold User_is_following, User_is_followed_by, is_following, is_followed_by.
    cbn zeta. rewrite following_count, followers_count.
    by rewrite !matches_member.
  - unfold User_following, User_followers. rewrite !elem_of_secondary_load.
    split; intros (_ & r & Hr & H1 & H2); (split; [done|]); exists r; done.
Qed.

Lemma is_following_converse_of_is_followed_by_witness :
  User_is_following one_follow bob alice
  = User_is_followed_by one_follow alice bob.
Proof.
  apply is_following_converse_of_is_followed_by; compute_done.
Defined.

(** Stores built by committing to the empty store satisfy the invariant. *)
Lemma two_users_wf : DB_wf two_users.
Proof.
  apply (flush_wf mdl0 0
           [ NewUser {| init_username := "alice"; init_email := "alice@x.com";
                        init_password := "$2b$12$alice"; init_image_url := None |};
             NewUser {| init_username := "bob"; init_email := "bob@x.com";
                        init_password := "$2b$12$bob"; init_image_url := None |} ]
           empty_db); [apply DB_wf_empty|reflexivity].
Qed.

Lemma one_follow_wf : DB_wf one_follow.
Proof.
  apply (flush_one_wf mdl0 0 two_users
           (NewFollow {| followee_id := 2; follower_id := 1 |}));
    [apply two_users_wf|reflexivity].
Qed.

(** C10.  [is_followed_by] and [is_following] test that the other user
    occurs exactly once in the collection: they are false when the user is
    absent and false when it occurs more than once.  On a collection without
    repeated users they are membership tests, and the collections loaded
    from a store that respects the primary keys are of that kind; loaded
    from a [follows] table that holds a pair twice they are false on a
    member. *)
Theorem follow_predicates_test_exactly_once db (self : User)
    (coll : list User) (other : User) :
  let n := length (filter (λ user, User_id user = User_id other) coll) in
  (is_followed_by coll other = bool_decide (n = 1%nat)
   ∧ is_following coll other = bool_decide (n = 1%nat))
  ∧ (User_id other ∉ User_id <$> coll →
     n = 0%nat ∧ is_followed_by coll other = false ∧ is_following coll other = false)
  ∧ ((1 < n)%nat →
     is_followed_by coll other = false ∧ is_following coll other = false)
  ∧ (NoDup (User_id <$> coll) →
     (is_followed_by coll other = true ↔ User_id other ∈ User_id <$> coll)
     ∧ (is_following coll other = true ↔ User_id other ∈ User_id <$> coll))
  ∧ (DB_wf db →
     (User_is_followed_by db self other = true ↔
      User_id other ∈ User_id <$> User_followers db self)
     ∧ (User_is_following db self other = true ↔
        User_id other ∈ User_id <$> User_following db self))
  ∧ (bob ∈ User_followers twice_followed alice
     ∧ User_is_followed_by twice_followed alice bob = false
     ∧ alice ∈ User_following twice_followed bob
     ∧ User_is_following twice_followed bob alice = false).
Proof.
  intros n.
  assert (∀ l : list User, NoDup (User_id <$> l) →
            (is_followed_by l other = true ↔ User_id other ∈ User_id <$> l)
            ∧ (is_following l other = true ↔ User_id other ∈ User_id <$> l))
    as Hmem.
  { intros l Hnd. rewrite is_followed_by_true, is_following_true.
    rewrite (count_id_NoDup l _ Hnd).
    destruct (decide (User_id other ∈ User_id <$> l)); split; split; done. }
  split; [done|]. split; [|split; [|split; [|split]]].
  - intros Habs.
    assert (n = 0%nat) as Hn.
    { subst n. rewrite filter_none; [done|].
      intros u Hu Heq. apply Habs. rewrite <- Heq. by apply list_elem_of_fmap_2. }
    split; [done|]. rewrite is_followed_by_false, is_following_false. fold n. lia.
  - intros Hn. rewrite is_followed_by_false, is_following_false. fold n. lia.
  - apply Hmem.
  - intros Hwf. unfold User_is_followed_by, User_is_following.
    destruct (Hmem (User_followers db self)) as [H1 _];
      [by apply followers_NoDup|].
    destruct (Hmem (User_following db self)) as [_ H2];
      [by apply following_NoDup|].
    done.
  - split; [compute_done|]. split; [done|]. split; [compute_done|done].
Qed.

Lemma follow_predicates_test_exactly_once_witness :
  (User_is_followed_by one_follow alice bob = true ↔
   User_id bob ∈ User_id <$> User_followers one_follow alice)
  ∧ is_followed_by [bob; bob] bob = false.
Proof.
  destruct (follow_predicates_test_exactly_once one_follow alice [bob; bob] bob)
    as (_ & _ & Hdup & _ & Hdb & _).
  split.
  - apply Hdb, one_follow_wf.
  - apply Hdup. vm_compute. lia.
Defined.

(** ** The like predicate *)

(** C7.  [m.is_liked_by(u)] is true exactly when some Like row attached to
    [m] has [user_id] equal to [u]. *)
Theorem is_liked_by_iff_some_like db (m : Message) (u : Z) :
  Message_is_liked_by db m u = true ↔
  ∃ like, like ∈ Message_likes db m ∧ Like_user_id like = u.
Proof.
  unfold Message_is_liked_by. cbn zeta. rewrite bool_decide_eq_true. split.
  - intros Hlen.
    destruct (filter (λ like, Like_user_id like = u) (Message_likes db m))
      as [|like rest] eqn:Hf; [cbn in Hlen; lia|].
    assert (like ∈ filter (λ like, Like_user_id like = u) (Message_likes db m))
      as [Hu Hin]%list_elem_of_filter by (rewrite Hf; left).
    eauto.
  - intros (like & Hin & Hu).
    assert (like ∈ filter (λ like, Like_user_id like = u) (Message_likes db m))
      as Hf by by apply list_elem_of_filter.
    destruct (filter _ _); [by apply elem_of_nil in Hf|cbn; lia].
Qed.

(** ** Composite primary keys *)

(** C6.  A Like row whose (user, message) pair is already in [likes], and
    a Follow row whose (follower, followee) pair is already in [follows],
    are refused with a uniqueness violation, and the store after the failed
    commit is the store before it. *)
Theorem duplicate_pair_is_refused mdl now db :
  (∀ l l' : Like,
     l ∈ likes db → Like_pk l' = Like_pk l →
     create mdl now db (NewLike l')
     = (session_of db, Some (UniqueViolation "likes_pkey")))
  ∧ (∀ r r' : FollowersFollowee,
       r ∈ follows db → FollowersFollowee_pk r' = FollowersFollowee_pk r →
       create mdl now db (NewFollow r')
       = (session_of db, Some (UniqueViolation "follows_pkey"))).
Proof.
  split.
  - intros l l' Hl Hpk. rewrite create_eq. cbn [flush_one]. unfold insert_like.
    rewrite decide_True; [done|]. rewrite Hpk. by apply list_elem_of_fmap_2.
  - intros r r' Hr Hpk. rewrite create_eq. cbn [flush_one]. unfold insert_follow.
    rewrite decide_True; [done|]. rewrite Hpk. by apply list_elem_of_fmap_2.
Qed.

Lemma duplicate_pair_is_refused_witness :
  create mdl0 200 one_follow (NewFollow {| followee_id := 2; follower_id := 1 |})
  = (session_of one_follow, Some (UniqueViolation "follows_pkey")).
Proof.
  destruct (duplicate_pair_is_refused mdl0 200 one_follow) as [_ Hfollow].
  apply (Hfollow {| followee_id := 2; follower_id := 1 |}).
  - compute_done.
  - reflexivity.
Defined.

(** ** Default timestamps *)

(** The two ways of declaring the default: a callable is read at each
    INSERT, a scalar is not. *)
Lemma callable_default_reads_the_clock (now : datetime) :
  apply_default (Callable utcnow) now None = now.
Proof. done. Qed.

Lemma scalar_default_ignores_the_clock (t now : datetime) :
  apply_default (Scalar (utcnow t)) now None = t.
Proof. done. Qed.

(** C2.  With the module imported when the clock read 100 (and 101 for
    [Comment]), a message created without a timestamp when the clock reads
    200 is stored with timestamp 100, and a comment created without a
    timestamp when the clock reads 300 is stored with timestamp 101:
    neither is the clock at the moment its row is created. *)
Theorem default_timestamp_is_not_creation_time :
  ∃ db1 db2 m c,
    create (load_models 100 101) 200 two_users (NewMessage hello)
    = (session_of db1, None)
    ∧ messages db1 = [m]
    ∧ Message_timestamp m = 100 ∧ Message_timestamp m ≠ 200
    ∧ create (load_models 100 101) 300 db1 (NewComment reply)
      = (session_of db2, None)
    ∧ comments db2 = [c]
    ∧ Comment_timestamp c = 101 ∧ Comment_timestamp c ≠ 300.
Proof.
  eexists _, _, _, _. vm_compute. repeat split; discriminate.
Qed.

(** C8, as stated: the claim makes one value of the [Message] default and
    the [Comment] default.  They are two calls of the clock; imported when
    the clock read 100, then 101, a message and a comment committed together
    without timestamps are stored with different ones. *)
Lemma message_and_comment_defaults_differ :
  ∃ db' m c,
    session_commit (load_models 100 101) 200
      (session_add (session_add (session_of two_users) (NewMessage hello))
                   (NewComment reply))
    = (session_of db', None)
    ∧ messages db' = [m] ∧ comments db' = [c]
    ∧ Message_timestamp m ≠ Comment_timestamp c.
Proof.
  eexists _, _, _. vm_compute. repeat split; discriminate.
Qed.

(** C8, amended.  Each of the two defaults is a scalar fixed when the
    module is imported: every message created without a timestamp is stored
    with the clock reading [t_message] taken in the body of [Message], every
    comment with the reading [t_comment] taken in the body of [Comment],
    whatever the clock reads when the row is created. *)
Theorem default_timestamps_are_fixed_at_import
    (t_message t_comment now : datetime) db :
  let mdl := load_models t_message t_comment in
  Message_timestamp_default mdl = Scalar t_message
  ∧ Comment_timestamp_default mdl = Scalar t_comment
  ∧ (∀ init : MessageInit,
     Message_init_timestamp init = None →
     (String.length (Message_init_text init) ≤ 140)%nat →
     Message_init_user_id init ∈ user_ids db →
     ∃ db' m,
       create mdl now db (NewMessage init) = (session_of db', None)
       ∧ messages db' = messages db ++ [m]
       ∧ Message_timestamp m = t_message)
  ∧ (∀ init : CommentInit,
       Comment_init_timestamp init = None →
       (String.length (Comment_init_text init) ≤ 140)%nat →
       Comment_init_user_id init ∈ user_ids db →
       Comment_init_message_id init ∈ message_ids db →
       ∃ db' c,
         create mdl now db (NewComment init) = (session_of db', None)
         ∧ comments db' = comments db ++ [c]
         ∧ Comment_timestamp c = t_comment).
Proof.
  intros mdl. split; [done|]. split; [done|]. split.
  - intros init Hts Hlen Huser. rewrite create_eq. cbn [flush_one].
    unfold insert_message. rewrite decide_False by lia. rewrite decide_True by done.
    eexists _, _. split; [done|]. split; [done|]. cbn. by rewrite Hts.
  - intros init Hts Hlen Huser Hmsg. rewrite create_eq. cbn [flush_one].
    unfold insert_comment. rewrite decide_False by lia. rewrite !decide_True by done.
    eexists _, _. split; [done|]. split; [done|]. cbn. by rewrite Hts.
Qed.

Lemma default_timestamps_are_fixed_at_import_witness :
  ∃ db' m,
    create (load_models 100 101) 200 two_users (NewMessage hello)
    = (session_of db', None)
    ∧ messages db' = messages two_users ++ [m]
    ∧ Message_timestamp m = 100.
Proof.
  destruct (default_timestamps_are_fixed_at_import 100 101 200 two_users)
    as (_ & _ & Hmsg & _).
  apply (Hmsg hello).
  - reflexivity.
  - vm_compute. lia.
  - compute_done.
Defined.

(** ** Sign-up and authentication *)

Lemma string_length_app (s1 s2 : string) :
  String.length (s1 +:+ s2) = (String.length s1 + String.length s2)%nat.
Proof.
  induction s1 as [|a s1 IH]; [done|].
  change (String a s1 +:+ s2) with (String a (s1 +:+ s2)).
  cbn [String.length]. by rewrite IH.
Qed.

Lemma toy_bcrypt_laws : BcryptLaws toy_bcrypt.
Proof.
  split; cbn.
  - intros _ password h. repeat case_decide; try done. intros [= <-].
    change (strip_prefix "$2b$12$" ("$2b$12$" +:+ password))
      with (Some password).
    cbn. f_equal. by apply bool_decide_eq_true.
  - intros _ password h. repeat case_decide; try done. intros [= <-] Heq.
    apply (f_equal String.length) in Heq. rewrite string_length_app in Heq.
    cbn in Heq. lia.
Qed.

Lemma query_filter_by_username_new db (u : User) :
  User_username u ∉ User_username <$> users db →
  query_filter_by_username (set_users db (users db ++ [u])) (User_username u)
  = [u].
Proof.
  intros Hnew. unfold query_filter_by_username, set_users. cbn [users].
  rewrite filter_app, filter_none.
  - by rewrite filter_cons_True.
  - intros v Hv Heq. apply Hnew. rewrite <- Heq. by apply list_elem_of_fmap_2.
Qed.

Lemma filter_by_id_new db (u : User) :
  User_id u ∉ user_ids db →
  filter (λ v, User_id v = User_id u) (users db ++ [u]) = [u].
Proof.
  intros Hnew. rewrite filter_app, filter_none.
  - by rewrite filter_cons_True.
  - intros v Hv Heq. apply Hnew. rewrite <- Heq.
    by apply (list_elem_of_fmap_2 User_id).
Qed.

Lemma query_filter_by_username_unique db (u : User) :
  NoDup (User_username <$> users db) → u ∈ users db →
  query_filter_by_username db (User_username u) = [u].
Proof.
  unfold query_filter_by_username.
  induction (users db) as [|a l IH]; [by intros _ ?%elem_of_nil|].
  rewrite fmap_cons, NoDup_cons. intros [Ha Hnd] [->|Hu]%elem_of_cons.
  - rewrite filter_cons_True by done. f_equal. apply filter_none.
    intros v Hv Heq. apply Ha. rewrite <- Heq. by apply list_elem_of_fmap_2.
  - rewrite filter_cons_False; [by apply IH|].
    intros Heq. apply Ha. rewrite Heq. by apply list_elem_of_fmap_2.
Qed.

Lemma signup_session_commit mdl now db (user : UserInit) :
  session_commit mdl now (session_add (session_of db) (NewUser user))
  = match insert_user mdl now db user with
    | Ok db' => (session_of db', None)
    | IntegrityError e => (session_of db, Some e)
    end.
Proof. apply (create_eq mdl now db (NewUser user)). Qed.

Section auth.
Context {B : Bcrypt}.

(** C3.  For a password that bcrypt hashes and a username and an email
    not yet in the store, [signup] followed by [commit] succeeds and adds
    one user: it is the only row with that username and the only row with
    its id, its stored password is the hash and not the plaintext
    password, and [authenticate(username, password)] returns it. *)
Theorem signup_commit_authenticate `{!BcryptLaws B} mdl now db salt
    (username email password : string) (image_url : option string)
    (h : string) :
  generate_password_hash salt password = Some h →
  username ∉ User_username <$> users db →
  email ∉ User_email <$> users db →
  ∃ s user db' u,
    User_signup salt (session_of db) username email password image_url
    = Some (s, user)
    ∧ session_commit mdl now s = (session_of db', None)
    ∧ users db' = users db ++ [u]
    ∧ query_filter_by_username db' username = [u]
    ∧ filter (λ v, User_id v = User_id u) (users db') = [u]
    ∧ User_username u = username
    ∧ User_email u = email
    ∧ User_password u = h
    ∧ User_password u ≠ password
    ∧ User_authenticate db' username password = AuthUser u.
Proof.
  intros Hh Hname Hmail.
  pose (user := {| init_username := username; init_email := email;
                   init_password := h; init_image_url := image_url |}).
  pose (u := {| User_id := fresh_id (user_ids db);
                User_email := email;
                User_username := username;
                User_image_url :=
                  Some (apply_default (User_image_url_default mdl) now image_url);
                User_header_image_url :=
                  Some (apply_default (User_header_image_url_default mdl) now None);
                User_bio := None;
                User_location := None;
                User_password := h |}).
  exists (session_add (session_of db) (NewUser user)), user,
    (set_users db (users db ++ [u])), u.
  assert (query_filter_by_username (set_users db (users db ++ [u])) username
          = [u]) as Hq by by apply (query_filter_by_username_new db u).
  split; [unfold User_signup; by rewrite Hh|].
  split.
  { rewrite signup_session_commit. unfold insert_user.
    cbn [init_email init_username user]. by rewrite !decide_False by done. }
  split; [done|].
  split; [done|]. split.
  { apply filter_by_id_new, fresh_id_fresh. }
  split; [done|]. split; [done|]. split; [done|]. split.
  { cbn. by eapply hash_not_plaintext. }
  unfold User_authenticate. rewrite Hq. cbn [head User_password u].
  by erewrite check_generated.
Qed.

End auth.

Lemma signup_commit_authenticate_witness :
  ∃ db' u,
    users db' = users two_users ++ [u]
    ∧ User_password u ≠ "pw123"
    ∧ @User_authenticate toy_bcrypt db' "carol" "pw123" = AuthUser u.
Proof.
  destruct (@signup_commit_authenticate toy_bcrypt toy_bcrypt_laws mdl0 200
              two_users "salt" "carol" "c@x.com" "pw123" None "$2b$12$pw123")
    as (s & user & db' & u & _ & _ & Husers & _ & _ & _ & _ & _ & Hpw & Hauth).
  - reflexivity.
  - compute_done.
  - compute_done.
  - exists db', u. repeat split; assumption.
Defined.



(** ** Serialization *)

(** In a store that respects the foreign keys, the owner of every message
    and of every comment can be loaded. *)
Lemma user_of_is_Some db (x : Z) : x ∈ user_ids db → is_Some (user_of db x).
Proof.
  intros (u & -> & Hu)%list_elem_of_fmap. unfold user_of. apply head_is_Some.
  assert (u ∈ filter (λ v, User_id v = User_id u) (users db)) as Hin
    by by apply list_elem_of_filter.
  intros Hnil. rewrite Hnil in Hin. by apply elem_of_nil in Hin.
Qed.

Lemma Message_user_stored db (m : Message) :
  m ∈ messages db → Message_user db m = user_of db (Message_user_id m).
Proof. intros Hm. unfold Message_user. by rewrite decide_True. Qed.

Lemma Comment_user_stored db (c : Comment) :
  c ∈ comments db → Comment_user db c = user_of db (Comment_user_id c).
Proof. intros Hc. unfold Comment_user. by rewrite decide_True. Qed.

Lemma Message_user_is_Some db (m : Message) :
  DB_wf db → m ∈ messages db → is_Some (Message_user db m).
Proof.
  intros Hwf Hm. rewrite Message_user_stored by done.
  by apply user_of_is_Some, wf_messages_fk.
Qed.

Lemma Comment_user_is_Some db (c : Comment) :
  DB_wf db → c ∈ comments db → is_Some (Comment_user db c).
Proof.
  intros Hwf Hc. rewrite Comment_user_stored by done.
  by apply user_of_is_Some, wf_comments_fk.
Qed.

(** C5.  When the owning user can be loaded, [Message.serialize()] returns
    a mapping whose keys are exactly id, text, user_id, timestamp, username,
    and [Comment.serialize()] one whose keys are exactly id, text, user_id,
    timestamp, username, msg_id, image_url. *)
Theorem serialize_keys db :
  (∀ (m : Message) (owner : User),
     Message_user db m = Some owner →
     ∃ d, Message_serialize db m = Some d
          ∧ dom d =@{gset string}
            {[ "id"; "text"; "user_id"; "timestamp"; "username" ]}
          ∧ d !! "username" = Some (PyStr (User_username owner)))
  ∧ (∀ (c : Comment) (owner : User),
       Comment_user db c = Some owner →
       ∃ d, Comment_serialize db c = Some d
            ∧ dom d =@{gset string}
              {[ "id"; "text"; "user_id"; "timestamp"; "username";
                 "msg_id"; "image_url" ]}
            ∧ d !! "username" = Some (PyStr (User_username owner))
            ∧ d !! "image_url" = Some (py_opt_str (User_image_url owner))).
Proof.
  split.
  - intros m owner Howner. unfold Message_serialize. rewrite Howner.
    eexists. split; [done|]. split.
    + rewrite dom_list_to_map_L. cbn. set_solver.
    + done.
  - intros c owner Howner. unfold Comment_serialize. rewrite Howner.
    eexists. split; [done|]. split; [|split].
    + rewrite dom_list_to_map_L. cbn. set_solver.
    + done.
    + done.
Qed.

Lemma serialize_keys_witness :
  ∃ d, Message_serialize busy hello_row = Some d
       ∧ dom d =@{gset string}
         {[ "id"; "text"; "user_id"; "timestamp"; "username" ]}
       ∧ d !! "username" = Some (PyStr "alice").
Proof.
  destruct (serialize_keys busy) as [Hmsg _].
  apply (Hmsg hello_row alice). reflexivity.
Defined.

(** ** Deleting messages and users *)

Lemma filter_ext_in {A} (P Q : A → Prop)
    `{!∀ x, Decision (P x), !∀ x, Decision (Q x)} (l : list A) :
  (∀ x, x ∈ l → (P x ↔ Q x)) → filter P l = filter Q l.
Proof.
  induction l as [|a l IH]; [done|]. intros Hext.
  rewrite !filter_cons, IH by (intros x Hx; apply Hext; by right).
  destruct (decide (P a)) as [HP|HP], (decide (Q a)) as [HQ|HQ]; try done.
  - destruct HQ. apply Hext; [left|done].
  - destruct HP. apply Hext; [left|done].
Qed.

Lemma filter_all {A} (P : A → Prop) `{!∀ x, Decision (P x)} (l : list A) :
  (∀ x, x ∈ l → P x) → filter P l = l.
Proof.
  induction l as [|a l IH]; [done|]. intros Hall.
  rewrite filter_cons_True by (apply Hall; left).
  f_equal. apply IH. intros x Hx. apply Hall. by right.
Qed.

Lemma NoDup_fmap_eq {A B} (f : A → B) (l : list A) (x y : A) :
  NoDup (f <$> l) → x ∈ l → y ∈ l → f x = f y → x = y.
Proof.
  induction l as [|a l IH]; [by intros _ ?%elem_of_nil|].
  rewrite fmap_cons, NoDup_cons. intros [Ha Hnd].
  intros [->|Hx]%elem_of_cons [->|Hy]%elem_of_cons Heq; [done| | |by apply IH].
  - destruct Ha. rewrite Heq. by apply list_elem_of_fmap_2.
  - destruct Ha. rewrite <- Heq. by apply list_elem_of_fmap_2.
Qed.

(** Deleting by key the rows of [l0] that satisfy [P] removes from a part
    [l] of [l0] exactly its rows that satisfy [P], provided the key of a
    row of [l] decides [P]. *)
Lemma filter_not_key_in {A K} (key : A → K) (P : A → Prop)
    `{!EqDecision K, !∀ x, Decision (P x)} (l l0 : list A) :
  (∀ x, x ∈ l → x ∈ l0) →
  (∀ x y, x ∈ l → y ∈ l0 → key x = key y → P y → P x) →
  filter (λ x, key x ∉ key <$> filter P l0) l = filter (λ x, ¬ P x) l.
Proof.
  intros Hsub Hkey. apply filter_ext_in. intros x Hx. split.
  - intros Hnot HP. apply Hnot, list_elem_of_fmap_2, list_elem_of_filter.
    split; [done|by apply Hsub].
  - intros HnP (y & Heq & [HPy Hy]%list_elem_of_filter)%list_elem_of_fmap.
    apply HnP. by apply (Hkey x y).
Qed.

Lemma delete_message_likes db (m : Message) :
  likes (delete_message db m)
  = filter (λ l, Like_message_id l ≠ Message_id m) (likes db).
Proof.
  unfold delete_message, delete_comments, delete_likes, Message_likes. cbn.
  apply (filter_not_key_in Like_pk (λ l, Like_message_id l = Message_id m));
    [done|].
  intros x y _ _ Hpk Hy. unfold Like_pk in Hpk. congruence.
Qed.

Lemma delete_message_comments db (m : Message) :
  NoDup (Comment_id <$> comments db) →
  comments (delete_message db m)
  = filter (λ c, Comment_message_id c ≠ Message_id m) (comments db).
Proof.
  intros Hnd.
  unfold delete_message, delete_comments, delete_likes, Message_comments. cbn.
  apply (filter_not_key_in Comment_id
           (λ c, Comment_message_id c = Message_id m)); [done|].
  intros x y Hx Hy Hid HP.
  by rewrite (NoDup_fmap_eq Comment_id (comments db) x y).
Qed.

Lemma delete_message_messages db (m : Message) :
  messages (delete_message db m)
  = filter (λ x, Message_id x ≠ Message_id m) (messages db).
Proof. done. Qed.

Lemma NoDup_fmap_filter {A B} (f : A → B) (P : A → Prop)
    `{!∀ x, Decision (P x)} (l : list A) :
  NoDup (f <$> l) → NoDup (f <$> filter P l).
Proof.
  intros Hnd. eapply sublist_NoDup; [exact Hnd|].
  apply fmap_sublist, sublist_filter.
Qed.

Lemma elem_of_fmap_filter {A B} `{!EqDecision B} (f : A → B) (P : A → Prop)
    `{!∀ x, Decision (P x)} (l : list A) (b : B) :
  (∀ x, x ∈ l → f x = b → P x) → b ∈ f <$> l → b ∈ f <$> filter P l.
Proof.
  intros HP (x & -> & Hx)%list_elem_of_fmap.
  apply list_elem_of_fmap_2, list_elem_of_filter. split; [by apply HP|done].
Qed.

Lemma delete_message_wf db (m : Message) :
  DB_wf db → DB_wf (delete_message db m).
Proof.
  intros Hwf. pose proof Hwf as [].
  split; rewrite ?delete_message_likes, ?delete_message_comments by done;
    unfold message_ids, user_ids in *;
    rewrite ?delete_message_messages; try (by apply NoDup_fmap_filter); try done.
  - intros x [_ Hx]%list_elem_of_filter. by apply wf_messages_fk0.
  - intros c [Hc Hin]%list_elem_of_filter.
    destruct (wf_comments_fk0 c Hin) as [Hu Hm]. split; [done|].
    apply elem_of_fmap_filter; [|done]. intros x _ Hid. congruence.
  - intros l [Hl Hin]%list_elem_of_filter.
    destruct (wf_likes_fk0 l Hin) as [Hu Hm]. split; [done|].
    apply elem_of_fmap_filter; [|done]. intros x _ Hid. congruence.
Qed.

Lemma foldr_delete_message db (ms : list Message) :
  DB_wf db →
  let db' := foldr (λ m acc, delete_message acc m) db ms in
  DB_wf db'
  ∧ users db' = users db
  ∧ follows db' = follows db
  ∧ messages db'
    = filter (λ x, Message_id x ∉ Message_id <$> ms) (messages db)
  ∧ likes db'
    = filter (λ l, Like_message_id l ∉ Message_id <$> ms) (likes db)
  ∧ comments db'
    = filter (λ c, Comment_message_id c ∉ Message_id <$> ms) (comments db).
Proof.
  intros Hwf. induction ms as [|m ms IH]; cbn zeta; cbn [foldr].
  - split; [done|]. split; [done|]. split; [done|].
    split; [|split]; symmetry; apply filter_all; by intros ? _ ?%elem_of_nil.
  - cbn zeta in IH. destruct IH as (Hwf' & Hu & Hf & Hm & Hl & Hc).
    set (acc := foldr (λ m acc, delete_message acc m) db ms) in *.
    split; [by apply delete_message_wf|]. split; [done|]. split; [done|].
    rewrite delete_message_messages, delete_message_likes,
      delete_message_comments by apply Hwf'.
    rewrite Hm, Hl, Hc, !list_filter_filter, fmap_cons.
    split; [|split]; apply list_filter_iff; intros x;
      rewrite not_elem_of_cons; tauto.
Qed.

(** The tables after [delete_user], one filter each. *)
Lemma delete_user_tables db (u : User) :
  DB_wf db →
  let mine := Message_id <$> User_messages db u in
  let db' := delete_user db u in
  users db' = filter (λ v, User_id v ≠ User_id u) (users db)
  ∧ messages db' = filter (λ m, Message_user_id m ≠ User_id u) (messages db)
  ∧ likes db'
    = filter (λ l, Like_user_id l ≠ User_id u ∧ Like_message_id l ∉ mine)
             (likes db)
  ∧ comments db'
    = filter (λ c, Comment_user_id c ≠ User_id u ∧ Comment_message_id c ∉ mine)
             (comments db)
  ∧ follows db'
    = filter (λ r, follower_id r ≠ User_id u ∧ followee_id r ≠ User_id u)
             (follows db).
Proof.
  intros Hwf mine db'.
  destruct (foldr_delete_message db (User_messages db u) Hwf)
    as (Hwf1 & Hu & Hf & Hm & Hl & Hc).
  subst db'. unfold delete_user.
  fold mine in Hm, Hl, Hc.
  remember (foldr (λ m acc, delete_message acc m) db (User_messages db u))
    as db1 eqn:Hdb1. clear Hdb1.
  unfold delete_comments, delete_likes. cbn.
  split; [by rewrite Hu|]. split; [|split; [|split; [|by rewrite Hf]]].
  - rewrite Hm. apply filter_ext_in. intros x Hx. split.
    + intros Hnot Hmine. apply Hnot, list_elem_of_fmap_2, list_elem_of_filter. done.
    + intros Hne (y & Hid & [Hy Hin]%list_elem_of_filter)%list_elem_of_fmap.
      apply Hne. destruct Hwf.
      by rewrite (NoDup_fmap_eq Message_id (messages db) x y).
  - unfold User_likes.
    rewrite (filter_not_key_in Like_pk (λ l, Like_user_id l = User_id u)).
    + rewrite Hl, list_filter_filter. done.
    + rewrite Hl. by intros x [_ ?]%list_elem_of_filter.
    + intros x y _ _ Hpk Hy. unfold Like_pk in Hpk. congruence.
  - unfold User_comments.
    rewrite (filter_not_key_in Comment_id (λ c, Comment_user_id c = User_id u)).
    + rewrite Hc, list_filter_filter. done.
    + rewrite Hc. by intros x [_ ?]%list_elem_of_filter.
    + rewrite Hc. intros x y [_ Hx]%list_elem_of_filter Hy Hid HP. destruct Hwf.
      by rewrite (NoDup_fmap_eq Comment_id (comments db) x y).
Qed.

Lemma elem_of_my_messages db (u : User) (x : Z) :
  x ∈ Message_id <$> User_messages db u ↔
  ∃ m, m ∈ messages db ∧ Message_id m = x ∧ Message_user_id m = User_id u.
Proof.
  unfold User_messages. rewrite list_elem_of_fmap. split.
  - intros (m & -> & [Hu Hm]%list_elem_of_filter). eauto.
  - intros (m & Hm & <- & Hu). exists m. split; [done|].
    by apply list_elem_of_filter.
Qed.

Lemma busy_wf : DB_wf busy.
Proof.
  apply (flush_wf mdl0 0
           [ NewUser {| init_username := "alice"; init_email := "alice@x.com";
                        init_password := "$2b$12$alice"; init_image_url := None |};
             NewUser {| init_username := "bob"; init_email := "bob@x.com";
                        init_password := "$2b$12$bob"; init_image_url := None |};
             NewMessage hello;
             NewMessage {| Message_init_text := "bye";
                           Message_init_timestamp := None;
                           Message_init_user_id := 2 |};
             NewComment reply;
             NewLike {| Like_user_id := 2; Like_message_id := 1 |};
             NewLike {| Like_user_id := 1; Like_message_id := 2 |};
             NewFollow {| followee_id := 2; follower_id := 1 |} ]
           empty_db); [apply DB_wf_empty|reflexivity].
Qed.

(** X1.  Deleting a user from a store that satisfies the declared
    constraints leaves a store that satisfies them: the cascades remove
    every row that referenced the user or one of the user's messages. *)
Theorem delete_user_keeps_constraints db (u : User) :
  DB_wf db → DB_wf (delete_user db u).
Proof.
  intros Hwf.
  destruct (delete_user_tables db u Hwf) as (Hu & Hm & Hl & Hc & Hf).
  pose proof Hwf as [].
  assert (∀ x, x ∈ user_ids db → x ≠ User_id u →
               x ∈ User_id <$> filter (λ v, User_id v ≠ User_id u) (users db))
    as Huser.
  { intros x Hx Hne. apply elem_of_fmap_filter; [|done]. intros v _ Hid. congruence. }
  assert (∀ x, x ∈ message_ids db → x ∉ Message_id <$> User_messages db u →
               x ∈ Message_id
                   <$> filter (λ m, Message_user_id m ≠ User_id u) (messages db))
    as Hmsg.
  { intros x Hx Hmine. apply elem_of_fmap_filter; [|done].
    intros m Hin Hid Hown. apply Hmine, elem_of_my_messages. eauto. }
  split; unfold message_ids, user_ids; rewrite ?Hu, ?Hm, ?Hl, ?Hc, ?Hf;
    try (by apply NoDup_fmap_filter).
  - intros m [Hne Hin]%list_elem_of_filter. apply Huser; [|done].
    by apply wf_messages_fk0.
  - intros c [[Hne Hmine] Hin]%list_elem_of_filter.
    destruct (wf_comments_fk0 c Hin). split; [by apply Huser|by apply Hmsg].
  - intros l [[Hne Hmine] Hin]%list_elem_of_filter.
    destruct (wf_likes_fk0 l Hin). split; [by apply Huser|by apply Hmsg].
  - intros r [[Hne1 Hne2] Hin]%list_elem_of_filter.
    destruct (wf_follows_fk0 r Hin). split; by apply Huser.
Qed.

Lemma delete_user_keeps_constraints_witness : DB_wf (delete_user busy alice).
Proof. apply delete_user_keeps_constraints, busy_wf. Defined.

(** X2.  What [delete_user] removes, and nothing else: the user's row, the
    user's messages, the likes and comments made by the user or attached to
    one of the user's messages, and the follow rows with the user at either
    end.  Every other row stays. *)
Theorem delete_user_removes_exactly db (u : User) :
  DB_wf db →
  let mine := Message_id <$> User_messages db u in
  let db' := delete_user db u in
  (∀ v, v ∈ users db' ↔ v ∈ users db ∧ User_id v ≠ User_id u)
  ∧ (∀ m, m ∈ messages db' ↔ m ∈ messages db ∧ Message_user_id m ≠ User_id u)
  ∧ (∀ l, l ∈ likes db' ↔
          l ∈ likes db ∧ Like_user_id l ≠ User_id u ∧ Like_message_id l ∉ mine)
  ∧ (∀ c, c ∈ comments db' ↔
          c ∈ comments db ∧ Comment_user_id c ≠ User_id u
          ∧ Comment_message_id c ∉ mine)
  ∧ (∀ r, r ∈ follows db' ↔
          r ∈ follows db ∧ follower_id r ≠ User_id u ∧ followee_id r ≠ User_id u).
Proof.
  intros Hwf mine db'.
  destruct (delete_user_tables db u Hwf) as (Hu & Hm & Hl & Hc & Hf).
  fold mine db' in Hu, Hm, Hl, Hc, Hf. rewrite Hu, Hm, Hl, Hc, Hf.
  split; [|split; [|split; [|split]]]; intros x;
    rewrite list_elem_of_filter; tauto.
Qed.

Lemma delete_user_removes_exactly_witness :
  hello_row ∈ messages (delete_user busy bob).
Proof.
  destruct (delete_user_removes_exactly busy bob busy_wf) as (_ & Hm & _).
  apply Hm. split; compute_done.
Defined.

Lemma follow_rows_deleted db (u : User) (a b : Z) :
  DB_wf db → a = User_id u ∨ b = User_id u →
  follow_rows (delete_user db u) a b = [].
Proof.
  intros Hwf Hab.
  destruct (delete_user_tables db u Hwf) as (_ & _ & _ & _ & Hf).
  unfold follow_rows. rewrite Hf. apply filter_none.
  intros r [[H1 H2] _]%list_elem_of_filter [Ha Hb]. destruct Hab; congruence.
Qed.

(** X3.  After a user is deleted, nobody follows them and they follow
    nobody: the four follow predicates that involve the deleted user are
    false for every other user object. *)
Theorem deleted_user_has_no_follow_links db (u v : User) :
  DB_wf db →
  let db' := delete_user db u in
  User_is_followed_by db' u v = false
  ∧ User_is_following db' u v = false
  ∧ User_is_followed_by db' v u = false
  ∧ User_is_following db' v u = false
  ∧ User_followers db' u = [] ∧ User_following db' u = [].
Proof.
  intros Hwf db'. subst db'.
  destruct (delete_user_tables db u Hwf) as (_ & _ & _ & _ & Hf).
  unfold User_is_followed_by, User_is_following.
  split; [|split; [|split; [|split; [|split]]]].
  - apply is_followed_by_false. rewrite followers_count.
    rewrite follow_rows_deleted by (done || by left). cbn. lia.
  - apply is_following_false. rewrite following_count.
    rewrite follow_rows_deleted by (done || by right). cbn. lia.
  - apply is_followed_by_false. rewrite followers_count.
    rewrite follow_rows_deleted by (done || by right). cbn. lia.
  - apply is_following_false. rewrite following_count.
    rewrite follow_rows_deleted by (done || by left). cbn. lia.
  - apply elem_of_nil_inv. intros x (_ & r & Hr & Hp & _)%elem_of_secondary_load.
    rewrite Hf in Hr. apply list_elem_of_filter in Hr as [[Hne _] _]. done.
  - apply elem_of_nil_inv. intros x (_ & r & Hr & Hp & _)%elem_of_secondary_load.
    rewrite Hf in Hr. apply list_elem_of_filter in Hr as [[_ Hne] _]. done.
Qed.

Lemma deleted_user_has_no_follow_links_witness :
  User_is_followed_by (delete_user busy bob) alice bob = false.
Proof.
  destruct (deleted_user_has_no_follow_links busy bob alice busy_wf)
    as (_ & _ & H & _).
  exact H.
Defined.

(** X4.  Deleting a message keeps the declared constraints and removes the
    message with exactly the likes and the comments attached to it; users,
    follow rows and everything attached to other messages stay, so the
    deleted message is liked by no one and the like predicate of every
    other message is unchanged. *)
Theorem delete_message_cascades db (m : Message) :
  DB_wf db →
  let db' := delete_message db m in
  DB_wf db'
  ∧ users db' = users db
  ∧ follows db' = follows db
  ∧ (∀ x, x ∈ messages db' ↔ x ∈ messages db ∧ Message_id x ≠ Message_id m)
  ∧ (∀ l, l ∈ likes db' ↔ l ∈ likes db ∧ Like_message_id l ≠ Message_id m)
  ∧ (∀ c, c ∈ comments db' ↔
          c ∈ comments db ∧ Comment_message_id c ≠ Message_id m)
  ∧ (∀ user_id, Message_is_liked_by db' m user_id = false)
  ∧ (∀ (m' : Message) user_id,
       Message_id m' ≠ Message_id m →
       Message_is_liked_by db' m' user_id = Message_is_liked_by db m' user_id).
Proof.
  intros Hwf db'. subst db'.
  split; [by apply delete_message_wf|]. split; [done|]. split; [done|].
  rewrite delete_message_messages, delete_message_likes,
    delete_message_comments by apply Hwf.
  split; [|split; [|split; [|split]]].
  - intros x. rewrite list_elem_of_filter. tauto.
  - intros x. rewrite list_elem_of_filter. tauto.
  - intros x. rewrite list_elem_of_filter. tauto.
  - intros user_id. unfold Message_is_liked_by, Message_likes.
    rewrite delete_message_likes, list_filter_filter.
    rewrite filter_none; [done|].
    intros l [Hne _]%list_elem_of_filter [_ Heq]. done.
  - intros m' user_id Hne. unfold Message_is_liked_by, Message_likes.
    rewrite delete_message_likes.
    rewrite (list_filter_filter_l (λ l, Like_message_id l = Message_id m'));
      [done|]. intros l Hl. congruence.
Qed.

Lemma delete_message_cascades_witness :
  Message_is_liked_by (delete_message busy hello_row) hello_row 2 = false.
Proof.
  destruct (delete_message_cascades busy hello_row busy_wf)
    as (_ & _ & _ & _ & _ & _ & H & _).
  apply H.
Defined.

(** ** More on sign-up and authentication *)

Section auth_more.
Context {B : Bcrypt}.

(** X5.  In a store with unique usernames, the three ways a call of
    [authenticate] can end are decided by the row stored under the
    username: it returns [u] exactly when [u] is that row and bcrypt
    verifies the password against its hash; it returns [False] exactly when
    there is no such row or bcrypt finds the password wrong for it; the
    error of bcrypt's check reaches the caller exactly when there is such a
    row and the check raises on it. *)
Theorem authenticate_iff db (username password : string) (u : User) :
  NoDup (User_username <$> users db) →
  (User_authenticate db username password = AuthUser u ↔
   u ∈ users db ∧ User_username u = username
   ∧ check_password_hash (User_password u) password = Some true)
  ∧ (User_authenticate db username password = AuthFalse ↔
     ∀ v, v ∈ users db → User_username v = username →
          check_password_hash (User_password v) password = Some false)
  ∧ (User_authenticate db username password = AuthValueError ↔
     ∃ v, v ∈ users db ∧ User_username v = username
          ∧ check_password_hash (User_password v) password = None).
Proof.
  intros Hnd.
  destruct (decide (username ∈ User_username <$> users db)) as [Hin|Hnot].
  - apply list_elem_of_fmap in Hin as (w & -> & Hw).
    assert (∀ v, v ∈ users db → User_username v = User_username w → v = w)
      as Hsame by (intros v Hv Heq; by eapply NoDup_fmap_eq).
    unfold User_authenticate.
    rewrite query_filter_by_username_unique by done. cbn [head].
    destruct (check_password_hash (User_password w) password) as [[]|] eqn:Hc.
    + split; [|split].
      * split; [by intros [= <-]|]. intros (Hu & Hname & _).
        by rewrite (Hsame u Hu Hname).
      * split; [done|]. intros Hall. specialize (Hall w Hw eq_refl). congruence.
      * split; [done|]. intros (v & Hv & Hname & Hnone).
        rewrite (Hsame v Hv Hname) in Hnone. congruence.
    + split; [|split].
      * split; [done|]. intros (Hu & Hname & Htrue).
        rewrite (Hsame u Hu Hname) in Htrue. congruence.
      * split; [|done]. intros _ v Hv Hname. by rewrite (Hsame v Hv Hname).
      * split; [done|]. intros (v & Hv & Hname & Hnone).
        rewrite (Hsame v Hv Hname) in Hnone. congruence.
    + split; [|split].
      * split; [done|]. intros (Hu & Hname & Htrue).
        rewrite (Hsame u Hu Hname) in Htrue. congruence.
      * split; [done|]. intros Hall. specialize (Hall w Hw eq_refl). congruence.
      * split; [|done]. intros _. by exists w.
  - assert (∀ v, v ∈ users db → User_username v ≠ username) as Hnone.
    { intros v Hv Hname. apply Hnot. rewrite <- Hname.
      by apply list_elem_of_fmap_2. }
    unfold User_authenticate, query_filter_by_username.
    rewrite filter_none by (intros v Hv; by apply Hnone). cbn [head].
    split; [|split].
    + split; [done|]. intros (Hu & Hname & _). by destruct (Hnone u Hu).
    + split; [|done]. intros _ v Hv Hname. by destruct (Hnone v Hv).
    + split; [done|]. intros (v & Hv & Hname & _). by destruct (Hnone v Hv).
Qed.

(** X6.  Deleting a user closes their login and no other: afterwards
    [authenticate] under the deleted user's name returns [False] for every
    password, and under any other name it returns what it returned
    before. *)
Theorem delete_user_closes_login db (u : User) (username password : string) :
  DB_wf db → u ∈ users db →
  let db' := delete_user db u in
  User_authenticate db' (User_username u) password = AuthFalse
  ∧ (username ≠ User_username u →
     User_authenticate db' username password
     = User_authenticate db username password).
Proof.
  intros Hwf Hu db'. subst db'.
  destruct (delete_user_tables db u Hwf) as (Hus & _).
  unfold User_authenticate, query_filter_by_username. rewrite Hus.
  destruct Hwf. split.
  - rewrite filter_none; [done|].
    intros v [Hne Hv]%list_elem_of_filter Hname. apply Hne.
    by rewrite (NoDup_fmap_eq User_username (users db) v u).
  - intros Hname. rewrite list_filter_filter.
    rewrite (filter_ext_in _ (λ v, User_username v = username)); [done|].
    intros v Hv. split; [tauto|]. intros Hv'. split; [done|]. intros Hid.
    apply Hname. rewrite <- Hv'. f_equal.
    by apply (NoDup_fmap_eq User_id (users db)).
Qed.
End auth_more.

Lemma authenticate_iff_witness :
  @User_authenticate toy_bcrypt two_users "alice" "alice" = AuthUser alice.
Proof.
  destruct (@authenticate_iff toy_bcrypt two_users "alice" "alice" alice)
    as ([_ Hin] & _).
  - compute_done.
  - apply Hin. split; [compute_done|]. split; reflexivity.
Defined.

Lemma delete_user_closes_login_witness :
  @User_authenticate toy_bcrypt (delete_user busy alice) "alice" "alice"
  = AuthFalse.
Proof.
  destruct (@delete_user_closes_login toy_bcrypt busy alice "bob" "alice"
              busy_wf) as [H _].
  - compute_done.
  - exact H.
Defined.

Section signup_more.
Context {B : Bcrypt}.

Lemma signup_returns salt (s0 : Session)
    (username email password : string) (image_url : option string) s user :
  User_signup salt s0 username email password image_url = Some (s, user) →
  ∃ h, generate_password_hash salt password = Some h
       ∧ user = {| init_username := username; init_email := email;
                   init_password := h; init_image_url := image_url |}
       ∧ s = session_add s0 (NewUser user).
Proof.
  unfold User_signup.
  destruct (generate_password_hash salt password) as [h|]; [|done].
  cbn [mbind option_bind]. intros [= <- <-]. by exists h.
Qed.

(** X7.  [signup] makes no uniqueness check and writes nothing: when it
    returns a user it would return the same user over any other store, the
    store is as it was and the user is only staged; with a username or an
    email that is already taken the refusal comes from the commit, as a
    uniqueness violation on [users] that leaves the store unchanged. *)
Theorem signup_taken_is_refused_at_commit mdl now db salt
    (username email password : string) (image_url : option string)
    s user :
  User_signup salt (session_of db) username email password image_url
  = Some (s, user) →
  username ∈ User_username <$> users db ∨ email ∈ User_email <$> users db →
  (∀ db2,
     User_signup salt (session_of db2) username email password image_url
     = Some (session_add (session_of db2) (NewUser user), user))
  ∧ store s = db
  ∧ pending s = [NewUser user]
  ∧ ∃ c,
      session_commit mdl now s = (session_of db, Some (UniqueViolation c))
      ∧ (c = "users_email_key" ∧ email ∈ User_email <$> users db
         ∨ c = "users_username_key" ∧ username ∈ User_username <$> users db).
Proof.
  intros (h & Hh & -> & ->)%signup_returns Htaken.
  split; [intros db2; unfold User_signup; by rewrite Hh|].
  split; [done|]. split; [done|].
  rewrite signup_session_commit. unfold insert_user.
  cbn [init_email init_username].
  destruct (decide (email ∈ User_email <$> users db)) as [He|He].
  - exists "users_email_key". split; [done|]. by left.
  - destruct Htaken as [Hn|?]; [|done]. rewrite decide_True by done.
    exists "users_username_key". split; [done|]. by right.
Qed.

(** X8.  Signing a new user up and committing does not touch the logins
    that exist: [authenticate] under any other username returns what it
    returned before, and the store still satisfies the declared
    constraints. *)
Theorem signup_keeps_other_logins mdl now db salt
    (username email password : string) (image_url : option string)
    s user db' (username' password' : string) :
  DB_wf db →
  User_signup salt (session_of db) username email password image_url
  = Some (s, user) →
  session_commit mdl now s = (session_of db', None) →
  username' ≠ username →
  User_authenticate db' username' password'
  = User_authenticate db username' password'
  ∧ DB_wf db'.
Proof.
  intros Hwf (h & Hh & -> & ->)%signup_returns Hcommit Hne.
  pose proof (session_commit_wf mdl now
                (session_add (session_of db)
                   (NewUser {| init_username := username; init_email := email;
                               init_password := h;
                               init_image_url := image_url |})) Hwf) as Hwf'.
  rewrite Hcommit in Hwf'. split; [|exact Hwf'].
  rewrite signup_session_commit in Hcommit.
  unfold insert_user in Hcommit. cbn [init_email init_username] in Hcommit.
  repeat case_decide; [done..|]. injection Hcommit as <-.
  unfold User_authenticate, query_filter_by_username, set_users. cbn [users].
  rewrite filter_app, filter_cons_False by (cbn; congruence).
  by rewrite filter_nil, app_nil_r.
Qed.

(** X9.  When [signup] returns and the username and email are free, the
    commit stores one row for the user: it carries the image given to
    [signup], or the default picture when none was given, the default
    header image, and no bio and no location. *)
Theorem signup_fills_profile_defaults (t_message t_comment now : datetime)
    db salt (username email password : string) (image_url : option string)
    s user :
  User_signup salt (session_of db) username email password image_url
  = Some (s, user) →
  username ∉ User_username <$> users db →
  email ∉ User_email <$> users db →
  ∃ db' u,
    session_commit (load_models t_message t_comment) now s
    = (session_of db', None)
    ∧ users db' = users db ++ [u]
    ∧ User_username u = username
    ∧ User_image_url u
      = Some (default "/static/images/default-pic.png" image_url)
    ∧ User_header_image_url u = Some "/static/images/warbler-hero.jpg"
    ∧ User_bio u = None ∧ User_location u = None.
Proof.
  intros (h & Hh & -> & ->)%signup_returns Hname Hmail.
  rewrite signup_session_commit. unfold insert_user.
  cbn [init_email init_username init_image_url].
  rewrite !decide_False by done.
  eexists _, _. split; [done|]. split; [done|]. split; [done|].
  cbn. by destruct image_url.
Qed.
End signup_more.

Lemma signup_taken_is_refused_at_commit_witness :
  ∃ c,
    session_commit mdl0 200
      (session_add (session_of two_users)
         (NewUser {| init_username := "alice"; init_email := "new@x.com";
                     init_password := "$2b$12$pw123";
                     init_image_url := None |}))
    = (session_of two_users, Some (UniqueViolation c)).
Proof.
  destruct (@signup_taken_is_refused_at_commit toy_bcrypt
              mdl0 200 two_users "salt" "alice" "new@x.com" "pw123" None
              (session_add (session_of two_users)
                 (NewUser {| init_username := "alice";
                             init_email := "new@x.com";
                             init_password := "$2b$12$pw123";
                             init_image_url := None |}))
              {| init_username := "alice"; init_email := "new@x.com";
                 init_password := "$2b$12$pw123"; init_image_url := None |})
    as (_ & _ & _ & c & Hc & _).
  - reflexivity.
  - left. compute_done.
  - by exists c.
Defined.

Lemma signup_keeps_other_logins_witness :
  ∃ db',
    @User_authenticate toy_bcrypt db' "alice" "alice"
    = @User_authenticate toy_bcrypt two_users "alice" "alice"
    ∧ DB_wf db'.
Proof.
  eexists.
  eapply (@signup_keeps_other_logins toy_bcrypt mdl0 200
            two_users "salt" "carol" "c@x.com" "pw123" None).
  - apply two_users_wf.
  - reflexivity.
  - reflexivity.
  - discriminate.
Defined.

Lemma signup_fills_profile_defaults_witness :
  ∃ db' u,
    users db' = users two_users ++ [u]
    ∧ User_image_url u = Some "/static/images/default-pic.png".
Proof.
  destruct (@signup_fills_profile_defaults toy_bcrypt
              100 101 200 two_users "salt" "carol" "c@x.com" "pw123" None
              (session_add (session_of two_users)
                 (NewUser {| init_username := "carol";
                             init_email := "c@x.com";
                             init_password := "$2b$12$pw123";
                             init_image_url := None |}))
              {| init_username := "carol"; init_email := "c@x.com";
                 init_password := "$2b$12$pw123"; init_image_url := None |})
    as (db' & u & _ & Hu & _ & Himg & _).
  - reflexivity.
  - compute_done.
  - compute_done.
  - exists db', u. split; assumption.
Defined.

(** ** Likes and follows, row by row *)

Lemma is_liked_by_true_iff db (m : Message) (user_id : Z) :
  Message_is_liked_by db m user_id = true ↔
  (user_id, Message_id m) ∈ Like_pk <$> likes db.
Proof.
  unfold Message_is_liked_by, Message_likes. cbn zeta.
  rewrite bool_decide_eq_true, list_filter_filter, list_elem_of_fmap. split.
  - intros Hlen.
    destruct (filter _ (likes db)) as [|l rest] eqn:Hf; [cbn in Hlen; lia|].
    assert (l ∈ l :: rest) as Hin by left. rewrite <- Hf in Hin.
    apply list_elem_of_filter in Hin as [[Hu Hm] Hin].
    exists l. split; [|done]. unfold Like_pk. by rewrite Hu, Hm.
  - intros (l & [= Hu Hm] & Hin).
    assert (l ∈ filter (λ a, Like_user_id a = user_id
                             ∧ Like_message_id a = Message_id m) (likes db))
      as Hf by by apply list_elem_of_filter.
    destruct (filter _ (likes db)); [by apply elem_of_nil in Hf|cbn; lia].
Qed.

Lemma is_liked_by_false_iff db (m : Message) (user_id : Z) :
  Message_is_liked_by db m user_id = false ↔
  (user_id, Message_id m) ∉ Like_pk <$> likes db.
Proof.
  rewrite <- is_liked_by_true_iff. by destruct (Message_is_liked_by db m user_id).
Qed.

(** X10.  Liking is a round trip with [is_liked_by], once per pair: for a
    user and a message of the store, the Like row is accepted exactly when
    the message is not yet liked by that user; once accepted the message is
    liked by that user, and no other (message, user) answer changes.  When
    the message is already liked by the user the row is refused as a
    duplicate. *)
Theorem like_round_trip mdl now db (m : Message) (user_id : Z) :
  m ∈ messages db → user_id ∈ user_ids db →
  let like := {| Like_user_id := user_id; Like_message_id := Message_id m |} in
  (Message_is_liked_by db m user_id = false →
   ∃ db',
     create mdl now db (NewLike like) = (session_of db', None)
     ∧ likes db' = likes db ++ [like]
     ∧ Message_is_liked_by db' m user_id = true
     ∧ ∀ (m' : Message) user_id',
         (Message_id m' ≠ Message_id m ∨ user_id' ≠ user_id) →
         Message_is_liked_by db' m' user_id'
         = Message_is_liked_by db m' user_id')
  ∧ (Message_is_liked_by db m user_id = true →
     create mdl now db (NewLike like)
     = (session_of db, Some (UniqueViolation "likes_pkey"))).
Proof.
  intros Hm Hu like. rewrite create_eq. cbn [flush_one]. unfold insert_like.
  split.
  - intros Hnot%is_liked_by_false_iff.
    rewrite decide_False by done. rewrite !decide_True;
      [|by apply (list_elem_of_fmap_2 Message_id)|done].
    eexists. split; [done|]. split; [done|]. split.
    + apply is_liked_by_true_iff. cbn. rewrite fmap_app.
      apply elem_of_app. right. by left.
    + intros m' user_id' Hother.
      destruct (Message_is_liked_by db m' user_id') eqn:Hold.
      * apply is_liked_by_true_iff. apply is_liked_by_true_iff in Hold.
        cbn. rewrite fmap_app. apply elem_of_app. by left.
      * apply is_liked_by_false_iff. apply is_liked_by_false_iff in Hold.
        cbn. rewrite fmap_app.
        intros [?| [= -> Heq]%list_elem_of_singleton]%elem_of_app; [done|].
        destruct Hother; congruence.
  - intros Hyes%is_liked_by_true_iff. by rewrite decide_True.
Qed.

Lemma like_round_trip_witness :
  ∃ db',
    create mdl0 200 busy (NewLike {| Like_user_id := 1; Like_message_id := 1 |})
    = (session_of db', None)
    ∧ Message_is_liked_by db' hello_row 1 = true.
Proof.
  destruct (like_round_trip mdl0 200 busy hello_row 1) as [Hnew _].
  - compute_done.
  - compute_done.
  - destruct Hnew as (db' & Hc & _ & Hl & _); [reflexivity|].
    exists db'. split; assumption.
Defined.

(** X11.  A new follow row changes the answers for one ordered pair only:
    after the row with follower [a] and followee [b] is committed,
    [X.is_followed_by(Y)] and [Y.is_following(X)] are what they were for
    every pair of users other than (X, Y) = (a, b); in particular the
    answers for the reverse pair (b, a) are untouched. *)
Theorem follow_touches_one_pair mdl now db (r : FollowersFollowee) db'
    (X Y : User) :
  create mdl now db (NewFollow r) = (session_of db', None) →
  (User_id X, User_id Y) ≠ (follower_id r, followee_id r) →
  User_is_followed_by db' X Y = User_is_followed_by db X Y
  ∧ User_is_following db' Y X = User_is_following db Y X.
Proof.
  rewrite create_eq. cbn [flush_one]. unfold insert_follow.
  repeat case_decide; try done. intros [= <-] Hne.
  unfold User_is_followed_by, User_is_following, is_followed_by, is_following.
  cbn zeta. rewrite !followers_count, !following_count, !follow_rows_snoc.
  rewrite !matches_set_follows, decide_False, app_nil_r; [done|].
  intros [Ha Hb]. congruence.
Qed.

Lemma follow_touches_one_pair_witness :
  User_is_followed_by one_follow bob alice = User_is_followed_by two_users bob alice.
Proof.
  eapply (follow_touches_one_pair mdl0 200 two_users
            {| followee_id := 2; follower_id := 1 |} one_follow bob alice).
  - reflexivity.
  - discriminate.
Defined.

(** X12.  Nothing forbids following oneself: for a user of the store with
    no such row yet, the row with the user at both ends is accepted, and
    afterwards the user both follows and is followed by themself. *)
Theorem self_follow_is_accepted mdl now db (u : User) :
  NoDup (user_ids db) → u ∈ users db →
  follow_rows db (User_id u) (User_id u) = [] →
  ∃ db',
    create mdl now db
      (NewFollow {| followee_id := User_id u; follower_id := User_id u |})
    = (session_of db', None)
    ∧ User_is_following db' u u = true
    ∧ User_is_followed_by db' u u = true.
Proof.
  intros Hnd Hu Hnone. rewrite create_eq. cbn [flush_one].
  rewrite insert_follow_fresh;
    [|done|by apply (list_elem_of_fmap_2 User_id)..].
  eexists. split; [done|].
  unfold User_is_following, User_is_followed_by. split.
  - apply is_following_true. follow_count.
    rewrite Hnone, decide_True by done. by rewrite matches_member.
  - apply is_followed_by_true. follow_count.
    rewrite Hnone, decide_True by done. by rewrite matches_member.
Qed.

Lemma self_follow_is_accepted_witness :
  ∃ db',
    create mdl0 200 two_users (NewFollow {| followee_id := 1; follower_id := 1 |})
    = (session_of db', None)
    ∧ User_is_following db' alice alice = true.
Proof.
  destruct (self_follow_is_accepted mdl0 200 two_users alice)
    as (db' & Hc & Hf & _).
  - compute_done.
  - compute_done.
  - reflexivity.
  - exists db'. split; assumption.
Defined.

(** ** Relationships and their backrefs *)

Lemma filter_key_unique {A K} `{!EqDecision K} (key : A → K) (l : list A)
    (x : A) :
  NoDup (key <$> l) → x ∈ l → filter (λ y, key y = key x) l = [x].
Proof.
  induction l as [|a l IH]; [by intros _ ?%elem_of_nil|].
  rewrite fmap_cons, NoDup_cons. intros [Ha Hnd] [->|Hx]%elem_of_cons.
  - rewrite filter_cons_True by done. f_equal. apply filter_none.
    intros v Hv Heq. apply Ha. rewrite <- Heq. by apply list_elem_of_fmap_2.
  - rewrite filter_cons_False; [by apply IH|].
    intros Heq. apply Ha. rewrite Heq. by apply list_elem_of_fmap_2.
Qed.

Lemma user_of_Some db (u : User) (x : Z) :
  NoDup (user_ids db) → u ∈ users db →
  user_of db x = Some u ↔ x = User_id u.
Proof.
  intros Hnd Hu. unfold user_of. split.
  - intros [Hid _]%head_Some_elem_of%list_elem_of_filter. done.
  - intros ->. by rewrite (filter_key_unique User_id).
Qed.

Lemma message_of_Some db (m : Message) (x : Z) :
  NoDup (message_ids db) → m ∈ messages db →
  message_of db x = Some m ↔ x = Message_id m.
Proof.
  intros Hnd Hm. unfold message_of. split.
  - intros [Hid _]%head_Some_elem_of%list_elem_of_filter. done.
  - intros ->. by rewrite (filter_key_unique Message_id).
Qed.

(** X13.  The collections and their backrefs agree.  For a user of the
    store, a message, comment or like is in [user.messages],
    [user.comments], [user.likes] exactly when it is a row whose [user]
    backref is that user; for a message of the store, a like or comment is
    in [message.likes], [message.comments] exactly when it is a row whose
    [message] backref is that message. *)
Theorem collections_agree_with_backrefs db (u : User) (m : Message) :
  NoDup (user_ids db) → NoDup (message_ids db) →
  u ∈ users db → m ∈ messages db →
  (∀ x, x ∈ User_messages db u ↔ x ∈ messages db ∧ Message_user db x = Some u)
  ∧ (∀ c, c ∈ User_comments db u ↔
          c ∈ comments db ∧ Comment_user db c = Some u)
  ∧ (∀ l, l ∈ User_likes db u ↔ l ∈ likes db ∧ Like_user db l = Some u)
  ∧ (∀ l, l ∈ Message_likes db m ↔ l ∈ likes db ∧ Like_message db l = Some m)
  ∧ (∀ c, c ∈ Message_comments db m ↔
          c ∈ comments db ∧ Comment_message db c = Some m).
Proof.
  intros Hus Hms Hu Hm.
  unfold User_messages, User_comments, User_likes, Message_likes,
    Message_comments, Message_user, Comment_user, Like_user, Like_message,
    Comment_message.
  split; [|split; [|split; [|split]]]; intros x;
    rewrite list_elem_of_filter;
    (split; [intros [Hp Hin]; rewrite decide_True by done
            |intros [Hin Ho]; rewrite decide_True in Ho by done; revert Ho];
     rewrite ?user_of_Some, ?message_of_Some by done; tauto).
Qed.

Lemma collections_agree_with_backrefs_witness :
  hello_row ∈ User_messages busy alice ↔
  hello_row ∈ messages busy ∧ Message_user busy hello_row = Some alice.
Proof.
  destruct (collections_agree_with_backrefs busy alice hello_row) as [H _].
  - compute_done.
  - compute_done.
  - compute_done.
  - compute_done.
  - apply H.
Defined.

(** ** Serialization over the store *)

Lemma user_of_None db (x : Z) : user_of db x = None ↔ x ∉ user_ids db.
Proof.
  split.
  - intros Hnone Hin. apply user_of_is_Some in Hin as [u Hu]. congruence.
  - intros Hnot. unfold user_of. rewrite filter_none; [done|].
    intros u Hu Hid. apply Hnot. rewrite <- Hid.
    by apply (list_elem_of_fmap_2 User_id).
Qed.

(** X14.  On a row of the store, [serialize] fails exactly when no row of
    [users] has the row's [user_id], and that happens for no row of a store
    that satisfies the foreign keys: every stored message and comment
    serializes, to a mapping that gives back the row's own columns and its
    owner's username (and, for a comment, the owner's image). *)
Theorem serialize_succeeds_on_the_store db :
  (∀ m : Message,
     m ∈ messages db →
     (Message_serialize db m = None ↔ Message_user_id m ∉ user_ids db))
  ∧ (∀ c : Comment,
       c ∈ comments db →
       (Comment_serialize db c = None ↔ Comment_user_id c ∉ user_ids db))
  ∧ (DB_wf db →
     (∀ m, m ∈ messages db →
        ∃ d owner,
          Message_serialize db m = Some d
          ∧ owner ∈ users db ∧ User_id owner = Message_user_id m
          ∧ d !! "id" = Some (PyInt (Message_id m))
          ∧ d !! "text" = Some (PyStr (Message_text m))
          ∧ d !! "user_id" = Some (PyInt (Message_user_id m))
          ∧ d !! "timestamp" = Some (PyDateTime (Message_timestamp m))
          ∧ d !! "username" = Some (PyStr (User_username owner)))
     ∧ (∀ c, c ∈ comments db →
          ∃ d owner,
            Comment_serialize db c = Some d
            ∧ owner ∈ users db ∧ User_id owner = Comment_user_id c
            ∧ d !! "id" = Some (PyInt (Comment_id c))
            ∧ d !! "text" = Some (PyStr (Comment_text c))
            ∧ d !! "user_id" = Some (PyInt (Comment_user_id c))
            ∧ d !! "timestamp" = Some (PyDateTime (Comment_timestamp c))
            ∧ d !! "username" = Some (PyStr (User_username owner))
            ∧ d !! "msg_id" = Some (PyInt (Comment_message_id c))
            ∧ d !! "image_url" = Some (py_opt_str (User_image_url owner)))).
Proof.
  split; [|split].
  - intros m Hm. unfold Message_serialize.
    rewrite Message_user_stored, <- user_of_None by done.
    by destruct (user_of db (Message_user_id m)).
  - intros c Hc. unfold Comment_serialize.
    rewrite Comment_user_stored, <- user_of_None by done.
    by destruct (user_of db (Comment_user_id c)).
  - intros Hwf. split.
    + intros m Hm. destruct (Message_user_is_Some db m Hwf Hm) as [owner Ho].
      unfold Message_serialize. rewrite Ho. cbn [mbind option_bind].
      rewrite Message_user_stored in Ho by done.
      apply head_Some_elem_of, list_elem_of_filter in Ho as [Hid Hin].
      eexists _, owner. split; [done|]. split; [done|]. split; [done|].
      repeat split.
    + intros c Hc. destruct (Comment_user_is_Some db c Hwf Hc) as [owner Ho].
      unfold Comment_serialize. rewrite Ho. cbn [mbind option_bind].
      rewrite Comment_user_stored in Ho by done.
      apply head_Some_elem_of, list_elem_of_filter in Ho as [Hid Hin].
      eexists _, owner. split; [done|]. split; [done|]. split; [done|].
      repeat split.
Qed.

Lemma serialize_succeeds_on_the_store_witness :
  ∃ d owner,
    Message_serialize busy hello_row = Some d
    ∧ owner ∈ users busy
    ∧ d !! "text" = Some (PyStr "hello").
Proof.
  destruct (serialize_succeeds_on_the_store busy) as (_ & _ & Hwf).
  destruct (Hwf busy_wf) as [Hmsg _].
  destruct (Hmsg hello_row) as (d & owner & Hd & Ho & _ & _ & Ht & _).
  - compute_done.
  - exists d, owner. repeat split; assumption.
Defined.

(** ** [__repr__] *)

Lemma append_cons (a : ascii) (s r : string) :
  String a s +:+ r = String a (s +:+ r).
Proof. done. Qed.

Lemma occurs_app (c : ascii) (s r : string) :
  occurs c (s +:+ r) ↔ occurs c s ∨ occurs c r.
Proof.
  induction s as [|a s IH]; [cbn; tauto|].
  rewrite append_cons. cbn [occurs]. rewrite IH. tauto.
Qed.

Lemma pretty_N_char_numeral (x : N) : numeral_char (pretty_N_char x).
Proof. unfold pretty_N_char, numeral_char. repeat case_match; compute_done. Qed.

Lemma pretty_N_go_chars (x : N) (s : string) (c : ascii) :
  occurs c (pretty_N_go x s) → numeral_char c ∨ occurs c s.
Proof.
  revert s. induction (N.lt_wf_0 x) as [x _ IH]; intros s Hocc.
  assert (x = 0 ∨ 0 < x)%N as [->|Hpos] by lia.
  - by right.
  - rewrite pretty_N_go_step in Hocc by done.
    apply IH in Hocc; [|by apply N.div_lt].
    destruct Hocc as [?|[<-|?]]; [by left| |by right].
    left. apply pretty_N_char_numeral.
Qed.

Lemma pretty_N_chars (x : N) (c : ascii) :
  occurs c (pretty x) → numeral_char c.
Proof.
  unfold pretty, pretty_N. case_decide.
  - intros [<-|[]]. compute_done.
  - intros [?|[]]%pretty_N_go_chars. done.
Qed.

Lemma pretty_Z_chars (x : Z) (c : ascii) :
  occurs c (pretty x) → numeral_char c.
Proof.
  unfold pretty, pretty_Z. destruct x as [|p|p].
  - intros [<-|[]]. compute_done.
  - apply pretty_N_chars.
  - rewrite occurs_app. intros [[<-|[]]|?]; [compute_done|].
    by eapply pretty_N_chars.
Qed.

(** Two strings cut at the first occurrence of a character have equal
    parts. *)
Lemma cut_unique (c : ascii) (s1 s2 t1 t2 : string) :
  ¬ occurs c s1 → ¬ occurs c s2 →
  s1 +:+ String c t1 = s2 +:+ String c t2 → s1 = s2 ∧ t1 = t2.
Proof.
  revert s2. induction s1 as [|a s1 IH]; intros [|b s2] H1 H2;
    rewrite ?append_cons; cbn in *.
  - by intros [= ->].
  - intros [= <- _]. tauto.
  - intros [= -> _]. tauto.
  - intros [= -> Heq]. destruct (IH s2) as [-> ->]; tauto.
Qed.

Lemma pretty_cut (x y : Z) (c : ascii) (t1 t2 : string) :
  ¬ numeral_char c →
  pretty x +:+ String c t1 = pretty y +:+ String c t2 → x = y ∧ t1 = t2.
Proof.
  intros Hc Heq. apply cut_unique in Heq as [Hp ->].
  - split; [|done]. by apply (inj pretty).
  - intros ?%pretty_Z_chars. done.
  - intros ?%pretty_Z_chars. done.
Qed.

(** X15.  [__repr__] shows which row it prints: two users, two messages or
    two comments with the same [repr] have the same id, so the rows of a
    table, whose ids differ, print differently. *)
Theorem repr_determines_id :
  (∀ u v : User, User_repr u = User_repr v → User_id u = User_id v)
  ∧ (∀ m n : Message,
       Message_repr m = Message_repr n → Message_id m = Message_id n)
  ∧ (∀ c d : Comment,
       Comment_repr c = Comment_repr d → Comment_id c = Comment_id d).
Proof.
  assert (¬ numeral_char ":") as Hcolon by compute_done.
  assert (¬ numeral_char (ascii_of_nat 10)) as Hlf by compute_done.
  split; [|split].
  - intros u v Heq. unfold User_repr in Heq.
    apply (inj (String.app "<User #")) in Heq.
    rewrite !(append_cons ":") in Heq. by apply pretty_cut in Heq as [? _].
  - intros m n Heq. unfold Message_repr, LF in Heq.
    apply (inj (String.app "<id: ")) in Heq.
    rewrite !(append_cons (ascii_of_nat 10)) in Heq.
    by apply pretty_cut in Heq as [? _].
  - intros c d Heq. unfold Comment_repr, LF in Heq.
    apply (inj (String.app "<id: ")) in Heq.
    rewrite !(append_cons (ascii_of_nat 10)) in Heq.
    by apply pretty_cut in Heq as [? _].
Qed.

(** ** Posting a message *)

(** X17.  A message posted by a user of the store, with a text of at most
    140 characters, is committed under an id no message had; it is then in
    its author's [messages], its [user] backref is the author, nobody likes
    it yet, and [serialize] returns its text under the author's
    username. *)
Theorem posted_message_is_served mdl now db (author : User)
    (text : string) (timestamp : option datetime) :
  DB_wf db → author ∈ users db →
  (String.length text ≤ 140)%nat →
  ∃ db' m d,
    create mdl now db
      (NewMessage {| Message_init_text := text;
                     Message_init_timestamp := timestamp;
                     Message_init_user_id := User_id author |})
    = (session_of db', None)
    ∧ messages db' = messages db ++ [m]
    ∧ (Message_id m ∉ message_ids db)
    ∧ m ∈ User_messages db' author
    ∧ Message_user db' m = Some author
    ∧ (∀ user_id, Message_is_liked_by db' m user_id = false)
    ∧ Message_serialize db' m = Some d
    ∧ d !! "text" = Some (PyStr text)
    ∧ d !! "username" = Some (PyStr (User_username author)).
Proof.
  intros Hwf Hauthor Hlen. pose proof (wf_user_ids db Hwf) as Hnd.
  rewrite create_eq. cbn [flush_one].
  unfold insert_message. cbn [Message_init_text Message_init_user_id].
  rewrite decide_False by lia.
  rewrite decide_True by by apply (list_elem_of_fmap_2 User_id).
  set (m := {| Message_id := fresh_id (message_ids db); Message_text := text;
               Message_timestamp := _; Message_user_id := User_id author |}).
  assert (Message_user (set_messages db (messages db ++ [m])) m = Some author)
    as Howner.
  { rewrite Message_user_stored by (cbn; apply elem_of_app; right; by left).
    by apply user_of_Some. }
  eexists _, m, _. split; [done|]. split; [done|].
  split; [apply fresh_id_fresh|]. split.
  { apply list_elem_of_filter. split; [done|]. cbn.
    apply elem_of_app. right. by left. }
  split; [done|]. split.
  { intros user_id. apply is_liked_by_false_iff. cbn.
    intros (l & [= _ Hid] & Hl)%list_elem_of_fmap.
    apply (fresh_id_fresh (message_ids db)). rewrite Hid.
    by apply (wf_likes_fk db Hwf). }
  unfold Message_serialize. rewrite Howner. cbn [mbind option_bind].
  split; [done|]. split; done.
Qed.

Lemma posted_message_is_served_witness :
  ∃ db' m d,
    create mdl0 200 two_users (NewMessage hello) = (session_of db', None)
    ∧ messages db' = messages two_users ++ [m]
    ∧ Message_serialize db' m = Some d
    ∧ d !! "username" = Some (PyStr "alice").
Proof.
  destruct (posted_message_is_served mdl0 200 two_users alice "hello" None)
    as (db' & m & d & Hc & Hm & _ & _ & _ & _ & Hs & _ & Hu).
  - apply two_users_wf.
  - compute_done.
  - vm_compute. lia.
  - exists db', m, d. repeat split; assumption.
Defined.
